(** * chain: chains of wrapped values ([Unwrap], [Is], [As], [Build])

    A shallow embedding of the Go package [github.com/rbranson/chain]
    (packages [iface], [chain] and [x]) and the properties of its
    specification.

    Go values boxed in [interface{}] are modelled by the type [value]; objects
    that are reached through pointers live in a [heap] (a list of cells
    indexed by address, a fresh address being the length of the list).
    Functions that may panic, loop or write through a pointer return a
    [result]; the two loops of the package ([Is], [As]) recurse on a fuel
    argument, because a chain may be cyclic. What the package takes from the
    Go runtime ([reflect.TypeOf], [==] on interface values,
    [reflect.DeepEqual], assignability, the messages of the runtime's
    panics) is modelled after the language specification and the
    documentation of package [reflect]. *)

From Stdlib Require Import String ZArith Bool Lia.
From stdpp Require Import base list strings pretty.

Local Open Scope Z_scope.
Local Open Scope nat_scope.
Local Set Warnings "-register-all".

(* ===================================================================== *)
(** * The Go runtime: types, values, heap *)
(* ===================================================================== *)

(** The four method names of package [iface]. *)
Inductive capability : Type := MUnwrap | MIs | MAs | MWrap.

(** [reflect.Kind], restricted to the kinds of the modelled types. *)
Inductive kind : Type :=
  KBool | KInt | KFloat64 | KString | KPtr | KSlice | KArray | KMap | KChan
| KFunc | KInterface | KStruct.

(** Go types. [TIface c] is the interface type of package [iface] that asks
    for method [c]; [TEmptyIface] is [interface{}]; [TNamed] is a struct type
    declared by the client program. *)
Inductive gotype : Type :=
| TBool
| TInt
| TFloat64
| TString
| TPtr (elem : gotype)
| TSlice (elem : gotype)
| TArray (len : nat) (elem : gotype)
| TMap (key elem : gotype)
| TChan (elem : gotype)
| TFunc (sig : string)
| TEmptyIface
| TIface (c : capability)
| THolder
| TLink
| TBuildLink
| TNamed (name : string).

#[global] Instance capability_eq_dec : EqDecision capability.
Proof. solve_decision. Defined.

#[global] Instance kind_eq_dec : EqDecision kind.
Proof. solve_decision. Defined.

#[global] Instance gotype_eq_dec : EqDecision gotype.
Proof. solve_decision. Defined.

Definition Kind (t : gotype) : kind :=
  match t with
  | TBool => KBool
  | TInt => KInt
  | TFloat64 => KFloat64
  | TString => KString
  | TPtr _ => KPtr
  | TSlice _ => KSlice
  | TArray _ _ => KArray
  | TMap _ _ => KMap
  | TChan _ => KChan
  | TFunc _ => KFunc
  | TEmptyIface | TIface _ => KInterface
  | THolder | TLink | TBuildLink | TNamed _ => KStruct
  end.

Definition addr := nat.

(** A [float64], as the 64 bits of its IEEE 754 representation
    ([math.Float64bits]). *)
Definition float64 := Z.

(** A value held in an [interface{}]. [VNil] is the nil interface (no dynamic
    type); [VNilRef t] is the nil value of the chan, func, map, pointer or
    slice type [t]; [VPtr elem a] is a non-nil [*elem] pointing at heap
    address [a]; a non-nil slice carries the address of its backing array and
    its elements; a non-nil map carries the address of the map and its
    entries; an array carries its elements. Complex numbers, the sized
    integer types and unsafe pointers are outside the model. *)
Inductive value : Type :=
| VNil
| VBool (b : bool)
| VInt (z : Z)
| VFloat (bits : float64)
| VString (s : string)
| VNilRef (t : gotype)
| VPtr (elem : gotype) (a : addr)
| VSlice (elem : gotype) (a : addr) (xs : list value)
| VArray (elem : gotype) (xs : list value)
| VMap (key elem : gotype) (a : addr) (entries : list (value * value))
| VChan (elem : gotype) (a : addr)
| VFunc (sig : string) (a : addr)
| VStruct (name : string) (fields : list value).

(** [chain.Holder], [chain.Link] and [chain.buildLink]. *)
Record Holder : Type := mkHolder { Value : value; Ok : bool }.
Record Link : Type := mkLink { Link_h : Holder; Link_v : value }.
Record buildLink : Type := mkBuildLink { buildLink_Link : Link }.

(** What a heap address holds: a variable or a client struct ([CVal]), or one
    of the package's own structs. *)
Inductive cell : Type :=
| CVal (x : value)
| CLink (l : Link)
| CBuildLink (b : buildLink).

Abbreviation heap := (list cell) (only parsing).

(** Outcome of a Go computation: a normal return, a panic with its message,
    fuel exhausted (the computation did not finish within the bound), or a
    heap that no well-typed Go program can have (a pointer whose cell is
    missing or of the wrong shape). *)
Inductive result (A : Type) : Type :=
| Ret (a : A)
| Panic (msg : string)
| NoFuel
| Stuck.
Arguments Ret {A} a.
Arguments Panic {A} msg.
Arguments NoFuel {A}.
Arguments Stuck {A}.

Definition bind {A B : Type} (r : result A) (k : A -> result B) : result B :=
  match r with
  | Ret a => k a
  | Panic m => Panic m
  | NoFuel => NoFuel
  | Stuck => Stuck
  end.

Notation "x <- r ;; k" := (bind r (fun x => k))
  (at level 100, r at next level, right associativity).

(** Messages of the panics of the Go runtime. *)
Definition nil_dereference : string :=
  "runtime error: invalid memory address or nil pointer dereference".

(** [reflect.Type.String]: the name of a type, as the runtime prints it. The
    name of a declared type and the signature of a function type are what the
    declaration gives. *)
Fixpoint type_name (t : gotype) : string :=
  match t with
  | TBool => "bool"
  | TInt => "int"
  | TFloat64 => "float64"
  | TString => "string"
  | TPtr elem => "*" +:+ type_name elem
  | TSlice elem => "[]" +:+ type_name elem
  | TArray len elem => "[" +:+ pretty len +:+ "]" +:+ type_name elem
  | TMap key elem => "map[" +:+ type_name key +:+ "]" +:+ type_name elem
  | TChan elem => "chan " +:+ type_name elem
  | TFunc sig => sig
  | TEmptyIface => "interface {}"
  | TIface MUnwrap => "iface.Unwrap"
  | TIface MIs => "iface.Is"
  | TIface MAs => "iface.As"
  | TIface MWrap => "iface.Wrap"
  | THolder => "chain.Holder"
  | TLink => "chain.Link"
  | TBuildLink => "chain.buildLink"
  | TNamed name => name
  end.

(** The panic of [==] on two interface values of one uncomparable dynamic
    type. *)
Definition uncomparable (t : gotype) : string :=
  "runtime error: comparing uncomparable type " +:+ type_name t.

(** IEEE 754 on the bits of a [float64]: not-a-number is an exponent of all
    ones with a mantissa that is not zero; the two zeros differ in the sign
    bit only. [x == y] is false when either is not-a-number, and true on the
    two zeros. *)
Definition float_isNaN (x : float64) : bool :=
  Z.eqb (Z.land (Z.shiftr x 52) 2047) 2047 &&
  negb (Z.eqb (Z.land x (Z.ones 52)) 0).

Definition float_isZero (x : float64) : bool :=
  Z.eqb (Z.land x (Z.ones 63)) 0.

Definition float_eq (x y : float64) : bool :=
  negb (float_isNaN x) && negb (float_isNaN y) &&
  (Z.eqb x y || (float_isZero x && float_isZero y)).

(** Zero values of the package's structs. *)
Definition zeroHolder : Holder := mkHolder VNil false.
Definition zeroLink : Link := mkLink zeroHolder VNil.
Definition zeroBuildLink : buildLink := mkBuildLink zeroLink.

(** [reflect.Type.Elem]: the element type; it panics on a type that has
    none. *)
Definition Type_Elem (t : gotype) : result gotype :=
  match t with
  | TPtr elem | TSlice elem | TArray _ elem | TChan elem | TMap _ elem => Ret elem
  | _ => Panic "reflect: Elem of invalid type"
  end.

(** [reflect.TypeOf]: the dynamic type, [None] for the nil interface. *)
Definition TypeOf (x : value) : option gotype :=
  match x with
  | VNil => None
  | VBool _ => Some TBool
  | VInt _ => Some TInt
  | VFloat _ => Some TFloat64
  | VString _ => Some TString
  | VNilRef t => Some t
  | VPtr elem _ => Some (TPtr elem)
  | VSlice elem _ _ => Some (TSlice elem)
  | VArray elem xs => Some (TArray (length xs) elem)
  | VMap key elem _ _ => Some (TMap key elem)
  | VChan elem _ => Some (TChan elem)
  | VFunc sig _ => Some (TFunc sig)
  | VStruct name _ => Some (TNamed name)
  end.

(** [reflect.Value.IsNil], for a value of chan, func, map, pointer or slice
    kind. *)
Definition IsNil (x : value) : bool :=
  match x with
  | VNilRef _ => true
  | _ => false
  end.

(** The methods that the client program declares on one of its types. The
    first argument of each is the receiver. *)
Record methods : Type := mkMethods {
  mUnwrap : option (value -> heap -> result ((value * bool) * heap));
  mIs : option (value -> value -> heap -> result (bool * heap));
  mAs : option (value -> value -> heap -> result (bool * heap));
  mWrap : option (value -> value -> heap -> result (bool * heap))
}.

Definition no_methods : methods := mkMethods None None None None.

(** The declarations of the client program: the methods of its types, and
    for each struct type that it declares whether the type is comparable
    with [==] ([None] for a name that it does not declare). *)
Record program : Type := mkProgram {
  methods_of : gotype -> methods;
  comparable_struct : string -> option bool
}.

(** The program that declares nothing: every value is a plain value or one of
    the package's own nodes, and there are no struct values. *)
Definition plain : program :=
  mkProgram (fun _ => no_methods) (fun _ => None).

(* ===================================================================== *)
(** * Go's equality, deep equality and assignability *)
(* ===================================================================== *)

Section Chain.

(** Everything below is relative to the declarations of the client. *)
Variable P : program.

(** Whether values of a type can be compared with [==]; [None] when the
    type involves a struct type that the program does not declare. *)
Fixpoint Comparable (t : gotype) : option bool :=
  match t with
  | TSlice _ | TMap _ _ | TFunc _ => Some false
  | TArray _ elem => Comparable elem
  | TNamed name => comparable_struct P name
  | _ => Some true
  end.

(** Compare two lists of values in order, stopping at the first
    difference. *)
Definition eq_in_order (eq : value -> value -> result bool)
    : list value -> list value -> result bool :=
  fix go (xs ys : list value) {struct xs} : result bool :=
    match xs, ys with
    | [], [] => Ret true
    | x :: xs', y :: ys' =>
      b <- eq x y ;;
      if b then go xs' ys' else Ret false
    | _, _ => Stuck
    end.

(** [x == y] on two interface values: equal dynamic types and equal values;
    it panics when the common dynamic type is not comparable. Struct fields
    and array elements are compared in order, stopping at the first
    difference. *)
Fixpoint iface_eq (x y : value) {struct x} : result bool :=
  match TypeOf x, TypeOf y with
  | None, None => Ret true
  | None, Some _ | Some _, None => Ret false
  | Some tx, Some ty =>
    if negb (bool_decide (tx = ty)) then Ret false
    else
      match Comparable tx with
      | None => Stuck
      | Some false => Panic (uncomparable tx)
      | Some true =>
        match x, y with
        | VBool a, VBool b => Ret (Bool.eqb a b)
        | VInt a, VInt b => Ret (Z.eqb a b)
        | VFloat a, VFloat b => Ret (float_eq a b)
        | VString a, VString b => Ret (String.eqb a b)
        | VNilRef _, VNilRef _ => Ret true
        | VPtr _ a, VPtr _ b => Ret (Nat.eqb a b)
        | VChan _ a, VChan _ b => Ret (Nat.eqb a b)
        | VArray _ xs, VArray _ ys => eq_in_order iface_eq xs ys
        | VStruct _ fs, VStruct _ gs => eq_in_order iface_eq fs gs
        | _, _ => Ret false
        end
      end
  end.

(** Equality of two map keys (keys are of comparable types). *)
Definition all_eqb (eqb : value -> value -> bool)
    : list value -> list value -> bool :=
  fix go (xs ys : list value) {struct xs} : bool :=
    match xs, ys with
    | [], [] => true
    | x :: xs', y :: ys' => eqb x y && go xs' ys'
    | _, _ => false
    end.

Fixpoint key_eq (x y : value) {struct x} : bool :=
  match x, y with
  | VNil, VNil => true
  | VBool a, VBool b => Bool.eqb a b
  | VInt a, VInt b => Z.eqb a b
  | VFloat a, VFloat b => float_eq a b
  | VString a, VString b => String.eqb a b
  | VNilRef t, VNilRef u => bool_decide (t = u)
  | VPtr t a, VPtr u b => bool_decide (t = u) && Nat.eqb a b
  | VChan t a, VChan u b => bool_decide (t = u) && Nat.eqb a b
  | VArray t xs, VArray u ys => bool_decide (t = u) && all_eqb key_eq xs ys
  | VStruct n fs, VStruct m gs => String.eqb n m && all_eqb key_eq fs gs
  | _, _ => false
  end.

(** [reflect.Value.MapIndex]: the value at a key, if the key is there. *)
Definition MapIndex (entries : list (value * value)) (k : value) : option value :=
  snd <$> List.find (fun e => key_eq (fst e) k) entries.

(** The pairs of pointers that [reflect.DeepEqual] has begun to compare,
    each with the type of the pointers; a pair is kept with the smaller
    address first. *)
Definition visit : Type := addr * addr * gotype.

Definition visit_key (a b : addr) (t : gotype) : visit :=
  (Nat.min a b, Nat.max a b, t).

Definition visited (vis : list visit) (k : visit) : bool :=
  existsb (fun k' => bool_decide (k' = k)) vis.

(** Compare two lists of values deeply, in order, stopping at the first
    difference; the visited pairs are passed along. *)
Definition deep_in_order
    (deep : value -> value -> list visit -> result (bool * list visit))
    : list value -> list value -> list visit -> result (bool * list visit) :=
  fix go (xs ys : list value) (vis : list visit) {struct xs}
      : result (bool * list visit) :=
    match xs, ys with
    | [], [] => Ret (true, vis)
    | x :: xs', y :: ys' =>
      r <- deep x y vis ;;
      let (b, vis') := r in
      if b then go xs' ys' vis' else Ret (false, vis')
    | _, _ => Stuck
    end.

(** Compare the entries of one map with the values at the same keys of
    another. *)
Definition deep_entries
    (deep : value -> value -> list visit -> result (bool * list visit))
    (others : list (value * value))
    : list (value * value) -> list visit -> result (bool * list visit) :=
  fix go (es : list (value * value)) (vis : list visit) {struct es}
      : result (bool * list visit) :=
    match es with
    | [] => Ret (true, vis)
    | (k, val1) :: es' =>
      match MapIndex others k with
      | None => Ret (false, vis)
      | Some val2 =>
        r <- deep val1 val2 vis ;;
        let (b, vis') := r in
        if b then go es' vis' else Ret (false, vis')
      end
    end.

(** [reflect.DeepEqual] on two values, given how to compare what two
    distinct pointers point at. The recursion follows the structure of the
    value: nil interfaces and dynamic types first, then the kind. Two
    non-nil pointers that are already being compared count as equal; two
    equal pointers, slices of one backing array and a map with itself are
    equal without a look at what they hold. Functions are deeply equal only
    when both are nil. *)
Definition deepValueEqualWith
    (follow : addr -> addr -> list visit -> result (bool * list visit))
    : value -> value -> list visit -> result (bool * list visit) :=
  fix deep (x y : value) (vis : list visit) {struct x}
      : result (bool * list visit) :=
    match TypeOf x, TypeOf y with
    | None, None => Ret (true, vis)
    | None, Some _ | Some _, None => Ret (false, vis)
    | Some tx, Some ty =>
      if negb (bool_decide (tx = ty)) then Ret (false, vis)
      else
        match x, y with
        | VBool a, VBool b => Ret (Bool.eqb a b, vis)
        | VInt a, VInt b => Ret (Z.eqb a b, vis)
        | VFloat a, VFloat b => Ret (float_eq a b, vis)
        | VString a, VString b => Ret (String.eqb a b, vis)
        | VNilRef _, VNilRef _ => Ret (true, vis)
        | VChan _ a, VChan _ b => Ret (Nat.eqb a b, vis)
        | VFunc _ _, VFunc _ _ => Ret (false, vis)
        | VPtr _ a, VPtr _ b =>
          let k := visit_key a b tx in
          if visited vis k then Ret (true, vis)
          else if Nat.eqb a b then Ret (true, k :: vis)
          else follow a b (k :: vis)
        | VSlice _ a xs, VSlice _ b ys =>
          if negb (Nat.eqb (length xs) (length ys)) then Ret (false, vis)
          else if Nat.eqb a b then Ret (true, vis)
          else deep_in_order deep xs ys vis
        | VArray _ xs, VArray _ ys => deep_in_order deep xs ys vis
        | VMap _ _ a xs, VMap _ _ b ys =>
          if negb (Nat.eqb (length xs) (length ys)) then Ret (false, vis)
          else if Nat.eqb a b then Ret (true, vis)
          else deep_entries deep ys xs vis
        | VStruct _ fs, VStruct _ gs => deep_in_order deep fs gs vis
        | _, _ => Ret (false, vis)
        end
    end.

(** Deep equality of two [Link] structs: the fields in order. *)
Definition deepLinkEqual
    (deep : value -> value -> list visit -> result (bool * list visit))
    (l1 l2 : Link) (vis : list visit) : result (bool * list visit) :=
  r <- deep (Value (Link_h l1)) (Value (Link_h l2)) vis ;;
  let (b, vis') := r in
  if negb b then Ret (false, vis')
  else if negb (Bool.eqb (Ok (Link_h l1)) (Ok (Link_h l2))) then Ret (false, vis')
  else deep (Link_v l1) (Link_v l2) vis'.

(** Deep equality of the contents of two heap cells behind pointers of one
    type. *)
Definition deepCellEqual
    (deep : value -> value -> list visit -> result (bool * list visit))
    (c1 c2 : option cell) (vis : list visit) : result (bool * list visit) :=
  match c1, c2 with
  | Some (CVal u), Some (CVal w) => deep u w vis
  | Some (CLink l1), Some (CLink l2) => deepLinkEqual deep l1 l2 vis
  | Some (CBuildLink k1), Some (CBuildLink k2) =>
    deepLinkEqual deep (buildLink_Link k1) (buildLink_Link k2) vis
  | _, _ => Stuck
  end.

(** What two distinct pointers point at is compared the same way. A cycle
    of pointers ends at a pair that is already being compared, as in Go; the
    fuel bounds the number of pointers followed in a row. *)
Fixpoint deepValueEqual (n : nat) (hp : heap) {struct n}
    : value -> value -> list visit -> result (bool * list visit) :=
  deepValueEqualWith
    (fun a b vis =>
       match n with
       | 0 => NoFuel
       | S n' => deepCellEqual (deepValueEqual n' hp) (hp !! a) (hp !! b) vis
       end).

(** [reflect.DeepEqual]: no pair of pointers has been visited yet. *)
Definition DeepEqual (n : nat) (hp : heap) (x y : value) : result bool :=
  r <- deepValueEqual n hp x y [] ;;
  Ret (fst r).

(** The method of a declared method set that goes by a given name. *)
Definition declares (m : methods) (c : capability) : bool :=
  match c with
  | MUnwrap => bool_decide (is_Some (mUnwrap m))
  | MIs => bool_decide (is_Some (mIs m))
  | MAs => bool_decide (is_Some (mAs m))
  | MWrap => bool_decide (is_Some (mWrap m))
  end.

(** Whether the method set of type [t] has method [c]: [*Link] and
    [*buildLink] have all four; a client type has what the client declares;
    the other types have no methods. *)
Definition has_method (t : gotype) (c : capability) : bool :=
  match t with
  | TPtr TLink | TPtr TBuildLink => true
  | TNamed _ | TPtr (TNamed _) => declares (methods_of P t) c
  | _ => false
  end.

(** The type assertion [v.(iface.C)] succeeds. *)
Definition implements (x : value) (c : capability) : bool :=
  match TypeOf x with
  | Some t => has_method t c
  | None => false
  end.

(** [reflect.Type.AssignableTo] from a dynamic type [t] to [u]: identical
    types, or [u] is an interface that [t] implements. *)
Definition AssignableTo (t u : gotype) : bool :=
  bool_decide (t = u) ||
  match u with
  | TEmptyIface => true
  | TIface c => has_method t c
  | _ => false
  end.

(* ===================================================================== *)
(** * Package x: nil detection and type examples *)
(* ===================================================================== *)

(** [x.ValueOf]: the [reflect.Value] of [v] if it is not nil; [None] stands
    for the pair (zero, false). *)
Definition ValueOf (v : value) : option value :=
  match TypeOf v with
  | None => None
  | Some t =>
    match Kind t with
    | KChan | KFunc | KMap | KPtr | KSlice =>
      if IsNil v then None else Some v
    | _ => Some v
    end
  end.

(** [x.Nil]. *)
Definition Nil (v : value) : bool :=
  match ValueOf v with
  | Some _ => false
  | None => true
  end.

Inductive error : Type := ErrIncorrectType.

(** [error.Error()]. *)
Definition Error (e : error) : string :=
  match e with
  | ErrIncorrectType => "must be a pointer"
  end.

Record TypeExample : Type := mkTypeExample { TypeExample_t : gotype }.

(** [x.MakeTypeExample]. On the nil interface [reflect.TypeOf] is nil and the
    call of [Kind] on it panics. *)
Definition MakeTypeExample (example : value) : result (error + TypeExample) :=
  match TypeOf example with
  | None => Panic nil_dereference
  | Some exampleType =>
    if negb (bool_decide (Kind exampleType = KPtr)) then Ret (inl ErrIncorrectType)
    else
      elem <- Type_Elem exampleType ;;
      Ret (inr (mkTypeExample elem))
  end.

(** [TypeExample.AssignableFrom]: [other.AssignableTo(e.t)], a method call on
    [other], which is the nil [reflect.Type] when it comes from the nil
    interface. *)
Definition AssignableFrom (e : TypeExample) (other : option gotype) : result bool :=
  match other with
  | None => Panic nil_dereference
  | Some o => Ret (AssignableTo o (TypeExample_t e))
  end.

(* ===================================================================== *)
(** * Package chain: Holder and Link *)
(* ===================================================================== *)

(** [Holder.Set]: the holder after the call. *)
Definition Holder_Set (h : Holder) (v : value) : Holder :=
  mkHolder v true.

(** [Holder.Get]. *)
Definition Holder_Get (h : Holder) : value * bool :=
  if negb (Ok h) then (VNil, false) else (Value h, true).

(** [Hold]. *)
Definition Hold (v : value) : Holder :=
  Holder_Set zeroHolder v.

(** [Link.Set]: the link after the call (the method returns its receiver). *)
Definition Link_Set (l : Link) (v : value) : Link :=
  mkLink (Link_h l) v.

(** [Link.Unwrap]. *)
Definition Link_Unwrap (l : Link) : value * bool :=
  Holder_Get (Link_h l).

(** [Link.Wrap]: the link after the call, and the returned boolean. *)
Definition Link_Wrap (l : Link) (v : value) : Link * bool :=
  (mkLink (Holder_Set (Link_h l) v) (Link_v l), true).

(** [Link.Is]. *)
Definition Link_Is (l : Link) (target : value) : result bool :=
  iface_eq (Link_v l) target.

(** [Link.As], given the function [As] of the package. *)
Definition Link_As (As : value -> value -> heap -> result (bool * heap))
    (l : Link) (target : value) (hp : heap) : result (bool * heap) :=
  As (Link_v l) target hp.

(** The methods of [buildLink] forward to the embedded [Link]. *)
Definition buildLink_Wrap (k : buildLink) (v : value) : buildLink * bool :=
  let (l, ok) := Link_Wrap (buildLink_Link k) v in (mkBuildLink l, ok).

Definition buildLink_Unwrap (k : buildLink) : value * bool :=
  Link_Unwrap (buildLink_Link k).

Definition buildLink_Is (k : buildLink) (target : value) : result bool :=
  Link_Is (buildLink_Link k) target.

Definition buildLink_As (As : value -> value -> heap -> result (bool * heap))
    (k : buildLink) (target : value) (hp : heap) : result (bool * heap) :=
  Link_As As (buildLink_Link k) target hp.

(* ===================================================================== *)
(** * Method calls through an interface value *)
(* ===================================================================== *)

(** [u.Unwrap()] for [u] a value that implements [iface.Unwrap]. The methods
    of [*Link] and [*buildLink] read the struct behind the receiver, which
    panics on a nil receiver. *)
Definition call_Unwrap (u : value) (hp : heap) : result ((value * bool) * heap) :=
  match u with
  | VPtr TLink a =>
    match hp !! a with
    | Some (CLink l) => Ret (Link_Unwrap l, hp)
    | _ => Stuck
    end
  | VPtr TBuildLink a =>
    match hp !! a with
    | Some (CBuildLink k) => Ret (buildLink_Unwrap k, hp)
    | _ => Stuck
    end
  | VNilRef (TPtr TLink) | VNilRef (TPtr TBuildLink) => Panic nil_dereference
  | _ =>
    match TypeOf u with
    | Some t =>
      match mUnwrap (methods_of P t) with
      | Some f => f u hp
      | None => Stuck
      end
    | None => Stuck
    end
  end.

(** [isv.Is(target)]. *)
Definition call_Is (isv target : value) (hp : heap) : result (bool * heap) :=
  match isv with
  | VPtr TLink a =>
    match hp !! a with
    | Some (CLink l) => b <- Link_Is l target ;; Ret (b, hp)
    | _ => Stuck
    end
  | VPtr TBuildLink a =>
    match hp !! a with
    | Some (CBuildLink k) => b <- buildLink_Is k target ;; Ret (b, hp)
    | _ => Stuck
    end
  | VNilRef (TPtr TLink) | VNilRef (TPtr TBuildLink) => Panic nil_dereference
  | _ =>
    match TypeOf isv with
    | Some t =>
      match mIs (methods_of P t) with
      | Some f => f isv target hp
      | None => Stuck
      end
    | None => Stuck
    end
  end.

(** [w.Wrap(src)]: the receiver's struct is updated in the heap. *)
Definition call_Wrap (w src : value) (hp : heap) : result (bool * heap) :=
  match w with
  | VPtr TLink a =>
    match hp !! a with
    | Some (CLink l) =>
      let (l', ok) := Link_Wrap l src in Ret (ok, <[a := CLink l']> hp)
    | _ => Stuck
    end
  | VPtr TBuildLink a =>
    match hp !! a with
    | Some (CBuildLink k) =>
      let (k', ok) := buildLink_Wrap k src in Ret (ok, <[a := CBuildLink k']> hp)
    | _ => Stuck
    end
  | VNilRef (TPtr TLink) | VNilRef (TPtr TBuildLink) => Panic nil_dereference
  | _ =>
    match TypeOf w with
    | Some t =>
      match mWrap (methods_of P t) with
      | Some f => f w src hp
      | None => Stuck
      end
    | None => Stuck
    end
  end.

(** [asv.As(target)], given the function [As] of the package. *)
Definition call_As (As : value -> value -> heap -> result (bool * heap))
    (asv target : value) (hp : heap) : result (bool * heap) :=
  match asv with
  | VPtr TLink a =>
    match hp !! a with
    | Some (CLink l) => Link_As As l target hp
    | _ => Stuck
    end
  | VPtr TBuildLink a =>
    match hp !! a with
    | Some (CBuildLink k) => buildLink_As As k target hp
    | _ => Stuck
    end
  | VNilRef (TPtr TLink) | VNilRef (TPtr TBuildLink) => Panic nil_dereference
  | _ =>
    match TypeOf asv with
    | Some t =>
      match mAs (methods_of P t) with
      | Some f => f asv target hp
      | None => Stuck
      end
    | None => Stuck
    end
  end.

(** [targetVal.Elem().Set(reflect.ValueOf(v))]: store [v] in the variable
    that the pointer [targetVal] points at. *)
Definition Elem_Set (targetVal v : value) (hp : heap) : result heap :=
  match targetVal with
  | VPtr _ a => Ret (<[a := CVal v]> hp)
  | _ => Stuck
  end.

(* ===================================================================== *)
(** * Package chain: Unwrap, Is, As, Build *)
(* ===================================================================== *)

(** [Unwrap]. *)
Definition Unwrap (v : value) (hp : heap) : result ((value * bool) * heap) :=
  if negb (implements v MUnwrap) then Ret ((VNil, false), hp)
  else call_Unwrap v hp.

(** [Is]: one unfolding per iteration of the loop. *)
Fixpoint Is (n : nat) (v target : value) (hp : heap) {struct n}
    : result (bool * heap) :=
  match n with
  | 0 => NoFuel
  | S n' =>
    if Nil v && Nil target then
      Ret (bool_decide (TypeOf v = TypeOf target), hp)
    else
      r <- (if implements v MIs then call_Is v target hp else Ret (false, hp)) ;;
      let (hit, hp1) := r in
      if hit then Ret (true, hp1)
      else
        eq <- DeepEqual n' hp1 v target ;;
        if eq then Ret (true, hp1)
        else
          u <- Unwrap v hp1 ;;
          let '((v', ok), hp2) := u in
          if negb ok then Ret (false, hp2)
          else Is n' v' target hp2
  end.

Definition target_nil : string := "chain: target must not be nil".

(** [As] and its loop. [Link.As] calls [As] again, on the held value. *)
Fixpoint As (n : nat) (v target : value) (hp : heap) {struct n}
    : result (bool * heap) :=
  match n with
  | 0 => NoFuel
  | S n' =>
    match ValueOf target with
    | None => Panic target_nil
    | Some targetVal =>
      m <- MakeTypeExample target ;;
      match m with
      | inl err => Panic ("chain: target " +:+ Error err)
      | inr targetEx => As_loop n' targetVal targetEx v target hp
      end
    end
  end
with As_loop (n : nat) (targetVal : value) (targetEx : TypeExample)
    (v target : value) (hp : heap) {struct n} : result (bool * heap) :=
  match n with
  | 0 => NoFuel
  | S n' =>
    assignable <- AssignableFrom targetEx (TypeOf v) ;;
    if assignable then
      hp1 <- Elem_Set targetVal v hp ;;
      Ret (true, hp1)
    else
      r <- (if implements v MAs then call_As (As n') v target hp
            else Ret (false, hp)) ;;
      let (hit, hp1) := r in
      if hit then Ret (true, hp1)
      else
        u <- Unwrap v hp1 ;;
        let '((v', ok), hp2) := u in
        if negb ok then Ret (false, hp2)
        else As_loop n' targetVal targetEx v' target hp2
  end.

Definition build_zero : string := "chain: Build called with zero arguments".
Definition wrap_false : string := "Link.Wrap should always return true".

(** One iteration of the loop of [Build]: the new [src]. A fresh
    [buildLink] is allocated at the end of the heap. *)
Definition Build_step (src dst : value) (hp : heap) : result (value * heap) :=
  r <- (if implements dst MWrap then call_Wrap dst src hp else Ret (false, hp)) ;;
  let (wrapped, hp1) := r in
  if wrapped then Ret (dst, hp1)
  else
    let link := mkBuildLink (Link_Set (buildLink_Link zeroBuildLink) dst) in
    let (link', ok) := buildLink_Wrap link src in
    if negb ok then Panic wrap_false
    else Ret (VPtr TBuildLink (length hp1), hp1 ++ [CBuildLink link']).

Fixpoint Build_loop (src : value) (rest : list value) (hp : heap)
    : result (value * heap) :=
  match rest with
  | [] => Ret (src, hp)
  | dst :: rest' =>
    r <- Build_step src dst hp ;;
    let (src', hp') := r in
    Build_loop src' rest' hp'
  end.

(** [Build]. *)
Definition Build (vals : list value) (hp : heap) : result (value * heap) :=
  match vals with
  | [] => Panic build_zero
  | [x] => Ret (x, hp)
  | x :: rest => Build_loop x rest hp
  end.

End Chain.

(* ===================================================================== *)
(** * Histories of a Holder and of a Link *)
(* ===================================================================== *)

(** A holder starts as the zero [Holder{}] and changes only through [Set]:
    the holder after the calls [Set(v)] for [v] in [vs], in order. *)
Definition Holder_after (vs : list value) : Holder :=
  foldl Holder_Set zeroHolder vs.

(** The two methods that change a [Link]. *)
Inductive Link_call : Type :=
| CallSet (v : value)
| CallWrap (v : value).

Definition Link_do (l : Link) (c : Link_call) : Link :=
  match c with
  | CallSet v => Link_Set l v
  | CallWrap v => fst (Link_Wrap l v)
  end.

Definition is_wrap (c : Link_call) : bool :=
  match c with
  | CallWrap _ => true
  | CallSet _ => false
  end.

(** The link [&Link{}] after a sequence of calls. *)
Definition Link_after (cs : list Link_call) : Link :=
  foldl Link_do zeroLink cs.

(* ===================================================================== *)
(** * Vocabulary of the properties *)
(* ===================================================================== *)

(** The two nodes that [Build("a","b","c")] allocates. *)
Definition link_b : buildLink :=
  mkBuildLink (mkLink (mkHolder (VString "a") true) (VString "b")).
Definition link_c (hp : heap) : buildLink :=
  mkBuildLink (mkLink (mkHolder (VPtr TBuildLink (length hp)) true) (VString "c")).
Definition heap_abc (hp : heap) : heap :=
  (hp ++ [CBuildLink link_b]) ++ [CBuildLink (link_c hp)].

(** The chain that [Build(nil, "a")] allocates: a link that wrapped nil. *)
Definition link_over_nil : buildLink :=
  mkBuildLink (mkLink (mkHolder VNil true) (VString "a")).

Definition target_not_pointer : string := "chain: target must be a pointer".

(** The values that have methods when the client declares none. *)
Inductive default_node : value -> Prop :=
| node_Link (a : addr) : default_node (VPtr TLink a)
| node_buildLink (a : addr) : default_node (VPtr TBuildLink a)
| node_nil_Link : default_node (VNilRef (TPtr TLink))
| node_nil_buildLink : default_node (VNilRef (TPtr TBuildLink)).

(** Node [v] does not match a target with pointee type [elem]: its dynamic
    type is not assignable, and it has no [As] method or the method answers
    false; [hp1] is the heap that the method leaves. *)
Definition As_no_match (P : program) (n : nat) (elem : gotype) (target v : value)
    (hp hp1 : heap) : Prop :=
  (exists t, TypeOf v = Some t /\ AssignableTo P t elem = false) /\
  (if implements P v MAs
   then call_As P (As P n) v target hp = Ret (false, hp1)
   else hp1 = hp).

(** The loop of [As] started at node [v] with fuel [N] passes nodes that do
    not match, each with a predecessor, and arrives at node [w] with fuel
    [m]. *)
Inductive As_skips (P : program) (elem : gotype) (target : value)
    : nat -> value -> heap -> nat -> value -> heap -> Prop :=
| As_skips_here (n : nat) (v : value) (hp : heap) :
    As_skips P elem target n v hp n v hp
| As_skips_next (n : nat) (v : value) (hp hp1 : heap) (v' : value) (hp2 : heap)
    (m : nat) (w : value) (hpw : heap) :
    As_no_match P n elem target v hp hp1 ->
    Unwrap P v hp1 = Ret ((v', true), hp2) ->
    As_skips P elem target n v' hp2 m w hpw ->
    As_skips P elem target (S n) v hp m w hpw.

(* ===================================================================== *)
(** * A client program *)
(* ===================================================================== *)

(** The client types of the package's tests: [unwrappable] and
    [unwrappable2] (a struct with one [chain.Holder] field and the method
    [Unwrap], which returns the holder's [Get]), [isMatcher] and [asMatcher]
    (a struct with one field [to]; the method compares its argument with
    [to] by [reflect.DeepEqual], and [asMatcher.As] sets nothing). To these
    is added [sentinel]:
      func (s *sentinel) Is(interface{}) bool { return true }
      func (s *sentinel) Unwrap() (interface{}, bool) { return nil, true }
    and [cover], a struct with one [chain.Holder] field [wrapped]:
      func (c *cover) Is(interface{}) bool { return true }
      func (c *cover) Unwrap() (interface{}, bool) { return c.wrapped.Get() }
    All the methods have pointer receivers. *)
Definition holder_field (f : value) : option Holder :=
  match f with
  | VStruct _ [val; VBool ok] => Some (mkHolder val ok)
  | _ => None
  end.

Definition unwrappable_Unwrap (u : value) (hp : heap)
    : result ((value * bool) * heap) :=
  match u with
  | VPtr _ a =>
    match hp !! a with
    | Some (CVal (VStruct _ [wrapped])) =>
      match holder_field wrapped with
      | Some h => Ret (Holder_Get h, hp)
      | None => Stuck
      end
    | _ => Stuck
    end
  | VNilRef _ => Panic nil_dereference
  | _ => Stuck
  end.

Definition matcher_to (m : value) (hp : heap) : result value :=
  match m with
  | VPtr _ a =>
    match hp !! a with
    | Some (CVal (VStruct _ [to])) => Ret to
    | _ => Stuck
    end
  | VNilRef _ => Panic nil_dereference
  | _ => Stuck
  end.

Definition isMatcher_Is (m other : value) (hp : heap) : result (bool * heap) :=
  to <- matcher_to m hp ;;
  b <- DeepEqual 16 hp other to ;;
  Ret (b, hp).

Definition asMatcher_As (m other : value) (hp : heap) : result (bool * heap) :=
  to <- matcher_to m hp ;;
  b <- DeepEqual 16 hp other to ;;
  Ret (b, hp).

Definition sentinel_Is (s other : value) (hp : heap) : result (bool * heap) :=
  Ret (true, hp).

Definition sentinel_Unwrap (s : value) (hp : heap) : result ((value * bool) * heap) :=
  Ret ((VNil, true), hp).

Definition client_methods (t : gotype) : methods :=
  match t with
  | TPtr (TNamed name) =>
    if String.eqb name "unwrappable" || String.eqb name "unwrappable2" then
      mkMethods (Some unwrappable_Unwrap) None None None
    else if String.eqb name "isMatcher" then
      mkMethods None (Some isMatcher_Is) None None
    else if String.eqb name "asMatcher" then
      mkMethods None None (Some asMatcher_As) None
    else if String.eqb name "sentinel" then
      mkMethods (Some sentinel_Unwrap) (Some sentinel_Is) None None
    else if String.eqb name "cover" then
      mkMethods (Some unwrappable_Unwrap) (Some sentinel_Is) None None
    else no_methods
  | _ => no_methods
  end.

(** The struct types that the client declares (and [chain.Holder], which its
    structs embed); all of them are comparable. *)
Definition client_structs (name : string) : option bool :=
  if existsb (String.eqb name)
       ["unwrappable"; "unwrappable2"; "isMatcher"; "asMatcher"; "sentinel";
        "cover"; "chain.Holder"]
  then Some true
  else None.

Definition client : program := mkProgram client_methods client_structs.

(** The heap of the test of [As]:
      0: hs = "hello"          1: am = &asMatcher{to: &hs}
      2: w4 = &unwrappable{wrapped: Hold(am)}
      3: hs2 = "olleh"         4: u2 = &unwrappable2{}
      5: w2 = &unwrappable{wrapped: Hold(u2)}
      6: w3 = &unwrappable{wrapped: Hold(w2)}
      7: var uw2 *unwrappable2 *)
Definition held (v : value) : value :=
  VStruct "chain.Holder" [v; VBool true].

Definition test_heap : heap :=
  [ CVal (VString "hello");
    CVal (VStruct "asMatcher" [VPtr TString 0]);
    CVal (VStruct "unwrappable" [held (VPtr (TNamed "asMatcher") 1)]);
    CVal (VString "olleh");
    CVal (VStruct "unwrappable2" [VStruct "chain.Holder" [VNil; VBool false]]);
    CVal (VStruct "unwrappable" [held (VPtr (TNamed "unwrappable2") 4)]);
    CVal (VStruct "unwrappable" [held (VPtr (TNamed "unwrappable") 5)]);
    CVal (VNilRef (TPtr (TNamed "unwrappable2"))) ].

(** The chain that [Build("a", 5)] allocates in the empty heap but for a
    string variable at address 0. *)
Definition heap_a5 : heap :=
  [ CVal (VString "");
    CBuildLink (mkBuildLink (mkLink (mkHolder (VString "a") true) (VInt 5))) ].

(** Whether [x] holds a non-nil function or a not-a-number, in itself or in
    a field of a struct or an element of an array (not behind a pointer, in a
    slice or in a map): such a value is not deeply equal to itself. *)
Fixpoint holds_func_or_NaN (x : value) : bool :=
  match x with
  | VFunc _ _ => true
  | VFloat f => float_isNaN f
  | VStruct _ fs => existsb holds_func_or_NaN fs
  | VArray _ xs => existsb holds_func_or_NaN xs
  | _ => false
  end.

(** Node [v] does not match [target] in [Is]: it has no [Is] method or the
    method answers false, leaving heap [hp1], and it is not deeply equal to
    the target. *)
Definition Is_no_match (P : program) (n : nat) (target v : value) (hp hp1 : heap) : Prop :=
  (if implements P v MIs
   then call_Is P v target hp = Ret (false, hp1)
   else hp1 = hp) /\
  DeepEqual n hp1 v target = Ret false.

(** A nil [*sentinel]. *)
Definition nil_sentinel : value := VNilRef (TPtr (TNamed "sentinel")).



(** Two links made by the client, holding "1" and "2", before [Build]. *)
Definition heap_links : heap :=
  [ CLink (mkLink zeroHolder (VString "1"));
    CLink (mkLink zeroHolder (VString "2")) ].

(* ===================================================================== *)
(** * Vocabulary of the further properties *)
(* ===================================================================== *)

(** [TypeExample.Type]. *)
Definition TypeExample_Type (e : TypeExample) : gotype := TypeExample_t e.

(** The kinds that [x.ValueOf] asks [IsNil] about. *)
Definition nilable (k : kind) : bool :=
  match k with
  | KChan | KFunc | KMap | KPtr | KSlice => true
  | _ => false
  end.

(** [built_chain hp head xs]: [head] is a chain as [Build] makes it from
    values without [Wrap]: a stack of [buildLink] nodes in the heap, each
    holding one value and wrapping the node below, down to the first value.
    [xs] lists the values from the most recent to the first. *)
Inductive built_chain (hp : heap) : value -> list value -> Prop :=
| built_first (x : value) :
    built_chain hp x [x]
| built_node (a : addr) (held below : value) (xs : list value) :
    hp !! a = Some (CBuildLink (mkBuildLink (mkLink (mkHolder below true) held))) ->
    built_chain hp below xs ->
    built_chain hp (VPtr TBuildLink a) (held :: xs).


(** Booleans, integers and strings, and their equality. *)
Definition simple (x : value) : bool :=
  match x with
  | VBool _ | VInt _ | VString _ => true
  | _ => false
  end.

Definition simple_eqb (x y : value) : bool :=
  match x, y with
  | VBool a, VBool b => Bool.eqb a b
  | VInt a, VInt b => Z.eqb a b
  | VString a, VString b => String.eqb a b
  | _, _ => false
  end.


(** Whether the dynamic type of [x] is assignable to [elem]. *)
Definition assignable_to (P : program) (elem : gotype) (x : value) : bool :=
  match TypeOf x with
  | Some t => AssignableTo P t elem
  | None => false
  end.

(** A non-nil [*Link] whose struct is in the heap. *)
Definition Link_pointer (hp : heap) (x : value) : Prop :=
  exists (a : addr) (l : Link), x = VPtr TLink a /\ hp !! a = Some (CLink l).

(** [math.NaN()]: the bits 0x7FF8000000000001. *)
Definition NaN : float64 := 9221120237041090561%Z.






(* ===================================================================== *)
(** * Holder and Link: filled versus empty *)
(* ===================================================================== *)

Lemma Holder_Get_Set (h : Holder) (v : value) :
  Holder_Get (Holder_Set h v) = (v, true).
Proof. reflexivity. Qed.

Lemma Holder_after_snoc (vs : list value) (v : value) :
  Holder_after (vs ++ [v]) = Holder_Set (Holder_after vs) v.
Proof. unfold Holder_after. now rewrite foldl_app. Qed.

Lemma Holder_after_Ok (vs : list value) :
  Ok (Holder_after vs) = negb (bool_decide (vs = [])).
Proof.
  induction vs as [|v vs _] using rev_ind; [reflexivity|].
  rewrite Holder_after_snoc. simpl.
  rewrite bool_decide_eq_false_2; [reflexivity|].
  intros E. now apply app_eq_nil in E as [_ ?].
Qed.

Lemma Link_after_snoc (cs : list Link_call) (c : Link_call) :
  Link_after (cs ++ [c]) = Link_do (Link_after cs) c.
Proof. unfold Link_after. now rewrite foldl_app. Qed.

Lemma Link_after_Ok (cs : list Link_call) :
  Ok (Link_h (Link_after cs)) = existsb is_wrap cs.
Proof.
  induction cs as [|c cs IH] using rev_ind; [reflexivity|].
  rewrite Link_after_snoc, existsb_app, <- IH.
  generalize (Link_after cs). intros l.
  destruct c; cbn.
  - now rewrite orb_false_r.
  - now rewrite orb_true_r.
Qed.

Lemma Holder_Get_present (h : Holder) : snd (Holder_Get h) = Ok h.
Proof. unfold Holder_Get. now destruct (Ok h). Qed.

(** C8. A holder that starts empty and changes only through [Set] answers
    [Get] with (nil, false) exactly when [Set] was never called, and with
    (v, true) right after [Set(v)], whatever [v] is (nil included). Hence a
    link's [Unwrap] reports false exactly when [Wrap] was never called on it,
    and a link that wrapped nil unwraps to (nil, true), which differs from
    the answer (nil, false) of a link that wrapped nothing. *)
Theorem Holder_filled_iff_set :
  (forall vs : list value, Holder_Get (Holder_after vs) = (VNil, false) <-> vs = []) /\
  (forall (h : Holder) (v : value), Holder_Get (Holder_Set h v) = (v, true)) /\
  (forall v : value, Holder_Get (Hold v) = (v, true)) /\
  (forall cs : list Link_call,
     snd (Link_Unwrap (Link_after cs)) = false <-> Forall (fun c => is_wrap c = false) cs) /\
  (forall l : Link, Link_Unwrap (fst (Link_Wrap l VNil)) = (VNil, true)) /\
  Link_Unwrap zeroLink = (VNil, false).
Proof.
  repeat split; try reflexivity.
  - intros E.
    assert (Hok : snd (Holder_Get (Holder_after vs)) = false) by now rewrite E.
    rewrite Holder_Get_present, Holder_after_Ok in Hok.
    apply negb_false_iff, bool_decide_eq_true_1 in Hok. exact Hok.
  - intros ->. reflexivity.
  - unfold Link_Unwrap. rewrite Holder_Get_present, Link_after_Ok.
    intros E. apply Forall_forall. intros c Hc.
    destruct (is_wrap c) eqn:Hw; [|reflexivity].
    assert (existsb is_wrap cs = true) as E'.
    { apply existsb_exists. exists c. split; [|exact Hw].
      now apply list_elem_of_In. }
    congruence.
  - unfold Link_Unwrap. rewrite Holder_Get_present, Link_after_Ok.
    intros HF. apply not_true_is_false. intros E.
    apply existsb_exists in E as (c & Hc & Hw).
    rewrite Forall_forall in HF. apply list_elem_of_In in Hc.
    specialize (HF c Hc). congruence.
Qed.

(* ===================================================================== *)
(** * Equations of the definitions *)
(* ===================================================================== *)

Lemma deepValueEqual_eq (n : nat) (hp : heap) :
  deepValueEqual n hp =
  deepValueEqualWith
    (fun a b vis =>
       match n with
       | 0 => NoFuel
       | S n' => deepCellEqual (deepValueEqual n' hp) (hp !! a) (hp !! b) vis
       end).
Proof. destruct n; reflexivity. Qed.

(** Values of different dynamic types are never deeply equal. *)
Lemma deepValueEqualWith_types
    (follow : addr -> addr -> list visit -> result (bool * list visit))
    (x y : value) (vis : list visit) :
  TypeOf x <> TypeOf y -> deepValueEqualWith follow x y vis = Ret (false, vis).
Proof.
  intros Hne.
  destruct (TypeOf x) as [tx|] eqn:Ex, (TypeOf y) as [ty|] eqn:Ey.
  - assert (tx <> ty) as Hty by congruence.
    destruct x; cbn [deepValueEqualWith]; rewrite Ex, Ey;
      rewrite (bool_decide_eq_false_2 _ Hty); reflexivity.
  - destruct x; cbn [deepValueEqualWith]; rewrite Ex, Ey; reflexivity.
  - destruct x; cbn [deepValueEqualWith]; rewrite Ex, Ey; reflexivity.
  - congruence.
Qed.

Lemma DeepEqual_types (n : nat) (hp : heap) (x y : value) :
  TypeOf x <> TypeOf y -> DeepEqual n hp x y = Ret false.
Proof.
  intros H. unfold DeepEqual. rewrite deepValueEqual_eq.
  now rewrite deepValueEqualWith_types.
Qed.

(** Values of different dynamic types are never [==]. *)
Lemma iface_eq_types (P : program) (x y : value) :
  TypeOf x <> TypeOf y -> iface_eq P x y = Ret false.
Proof.
  intros Hne.
  destruct (TypeOf x) as [tx|] eqn:Ex, (TypeOf y) as [ty|] eqn:Ey.
  - assert (tx <> ty) as Hty by congruence.
    destruct x; cbn [iface_eq]; rewrite Ex, Ey;
      rewrite (bool_decide_eq_false_2 _ Hty); reflexivity.
  - destruct x; cbn [iface_eq]; rewrite Ex, Ey; reflexivity.
  - destruct x; cbn [iface_eq]; rewrite Ex, Ey; reflexivity.
  - congruence.
Qed.


(** The checks of [As] pass on a non-nil pointer. *)
Lemma As_pointer (P : program) (n : nat) (v : value) (elem : gotype) (a : addr) (hp : heap) :
  As P (S n) v (VPtr elem a) hp =
  As_loop P n (VPtr elem a) (mkTypeExample elem) v (VPtr elem a) hp.
Proof. reflexivity. Qed.

(** One iteration of [Is] on a [*buildLink]. *)
Lemma Is_at_buildLink (P : program) (n : nat) (a : addr) (k : buildLink)
    (target : value) (hp : heap) :
  hp !! a = Some (CBuildLink k) ->
  Is P (S n) (VPtr TBuildLink a) target hp =
  (b <- iface_eq P (Link_v (buildLink_Link k)) target ;;
   if b then Ret (true, hp)
   else
     eq <- DeepEqual n hp (VPtr TBuildLink a) target ;;
     if eq then Ret (true, hp)
     else
       let (v', ok) := Holder_Get (Link_h (buildLink_Link k)) in
       if negb ok then Ret (false, hp) else Is P n v' target hp).
Proof.
  intros Hk. simpl. rewrite Hk.
  unfold buildLink_Is, Link_Is.
  destruct (iface_eq P (Link_v (buildLink_Link k)) target) as [[]| | |]; simpl;
    try reflexivity.
  destruct (DeepEqual n hp (VPtr TBuildLink a) target) as [[]| | |]; simpl;
    try reflexivity.
  unfold Unwrap. simpl. rewrite Hk. simpl. unfold buildLink_Unwrap, Link_Unwrap.
  destruct (Holder_Get (Link_h (buildLink_Link k))) as [v' []]; reflexivity.
Qed.

(** One iteration of [Is] on a [*Link]. *)
Lemma Is_at_Link (P : program) (n : nat) (a : addr) (l : Link)
    (target : value) (hp : heap) :
  hp !! a = Some (CLink l) ->
  Is P (S n) (VPtr TLink a) target hp =
  (b <- iface_eq P (Link_v l) target ;;
   if b then Ret (true, hp)
   else
     eq <- DeepEqual n hp (VPtr TLink a) target ;;
     if eq then Ret (true, hp)
     else
       let (v', ok) := Holder_Get (Link_h l) in
       if negb ok then Ret (false, hp) else Is P n v' target hp).
Proof.
  intros Hk. simpl. rewrite Hk.
  unfold Link_Is.
  destruct (iface_eq P (Link_v l) target) as [[]| | |]; simpl;
    try reflexivity.
  destruct (DeepEqual n hp (VPtr TLink a) target) as [[]| | |]; simpl;
    try reflexivity.
  unfold Unwrap. simpl. rewrite Hk. simpl. unfold Link_Unwrap.
  destruct (Holder_Get (Link_h l)) as [v' []]; reflexivity.
Qed.

(** [Is] on two strings: no method, no predecessor, deep equality decides. *)
Lemma Is_strings (P : program) (n : nat) (s s' : string) (hp : heap) :
  Is P (S n) (VString s) (VString s') hp = Ret (String.eqb s s', hp).
Proof.
  simpl. unfold DeepEqual. rewrite deepValueEqual_eq. simpl.
  now destruct (String.eqb s s').
Qed.

(** One iteration of the loop of [As] on a [*buildLink] that is not itself
    assignable to the target. *)
Lemma As_loop_at_buildLink (P : program) (n : nat) (a : addr) (k : buildLink)
    (tv target : value) (elem : gotype) (hp : heap) :
  hp !! a = Some (CBuildLink k) ->
  AssignableTo P (TPtr TBuildLink) elem = false ->
  As_loop P (S n) tv (mkTypeExample elem) (VPtr TBuildLink a) target hp =
  (r <- As P n (Link_v (buildLink_Link k)) target hp ;;
   let (hit, hp1) := r in
   if hit then Ret (true, hp1)
   else
     u <- Unwrap P (VPtr TBuildLink a) hp1 ;;
     let '((v', ok), hp2) := u in
     if negb ok then Ret (false, hp2)
     else As_loop P n tv (mkTypeExample elem) v' target hp2).
Proof.
  intros Hk Hna. simpl. simpl in Hna. rewrite Hna. simpl. rewrite Hk. reflexivity.
Qed.

(** The same on a [*Link]. *)
Lemma As_loop_at_Link (P : program) (n : nat) (a : addr) (l : Link)
    (tv target : value) (elem : gotype) (hp : heap) :
  hp !! a = Some (CLink l) ->
  AssignableTo P (TPtr TLink) elem = false ->
  As_loop P (S n) tv (mkTypeExample elem) (VPtr TLink a) target hp =
  (r <- As P n (Link_v l) target hp ;;
   let (hit, hp1) := r in
   if hit then Ret (true, hp1)
   else
     u <- Unwrap P (VPtr TLink a) hp1 ;;
     let '((v', ok), hp2) := u in
     if negb ok then Ret (false, hp2)
     else As_loop P n tv (mkTypeExample elem) v' target hp2).
Proof.
  intros Hk Hna. simpl. simpl in Hna. rewrite Hna. simpl. rewrite Hk. reflexivity.
Qed.

(** [Unwrap] of a [*buildLink]. *)
Lemma Unwrap_buildLink (P : program) (a : addr) (k : buildLink) (hp : heap) :
  hp !! a = Some (CBuildLink k) ->
  Unwrap P (VPtr TBuildLink a) hp = Ret (Holder_Get (Link_h (buildLink_Link k)), hp).
Proof. intros Hk. unfold Unwrap. simpl. now rewrite Hk. Qed.

Lemma Unwrap_Link (P : program) (a : addr) (l : Link) (hp : heap) :
  hp !! a = Some (CLink l) ->
  Unwrap P (VPtr TLink a) hp = Ret (Holder_Get (Link_h l), hp).
Proof. intros Hk. unfold Unwrap. simpl. now rewrite Hk. Qed.

(** The loops, one iteration unfolded. *)
Lemma Is_S (P : program) (n : nat) (v target : value) (hp : heap) :
  Is P (S n) v target hp =
  if Nil v && Nil target then
    Ret (bool_decide (TypeOf v = TypeOf target), hp)
  else
    r <- (if implements P v MIs then call_Is P v target hp else Ret (false, hp)) ;;
    let (hit, hp1) := r in
    if hit then Ret (true, hp1)
    else
      eq <- DeepEqual n hp1 v target ;;
      if eq then Ret (true, hp1)
      else
        u <- Unwrap P v hp1 ;;
        let '((v', ok), hp2) := u in
        if negb ok then Ret (false, hp2)
        else Is P n v' target hp2.
Proof. reflexivity. Qed.

Lemma As_loop_S (P : program) (n : nat) (tv : value) (ex : TypeExample)
    (v target : value) (hp : heap) :
  As_loop P (S n) tv ex v target hp =
  (assignable <- AssignableFrom P ex (TypeOf v) ;;
   if assignable then
     hp1 <- Elem_Set tv v hp ;;
     Ret (true, hp1)
   else
     r <- (if implements P v MAs then call_As P (As P n) v target hp
           else Ret (false, hp)) ;;
     let (hit, hp1) := r in
     if hit then Ret (true, hp1)
     else
       u <- Unwrap P v hp1 ;;
       let '((v', ok), hp2) := u in
       if negb ok then Ret (false, hp2)
       else As_loop P n tv ex v' target hp2).
Proof. reflexivity. Qed.

Lemma iface_eq_strings (P : program) (s s' : string) :
  iface_eq P (VString s) (VString s') = Ret (String.eqb s s').
Proof. reflexivity. Qed.

#[local] Arguments Is : simpl never.
#[local] Arguments As : simpl never.
#[local] Arguments As_loop : simpl never.
#[local] Arguments String.eqb : simpl never.

(* ===================================================================== *)
(** * Build("a", "b", "c") *)
(* ===================================================================== *)

Lemma heap_abc_b (hp : heap) : heap_abc hp !! length hp = Some (CBuildLink link_b).
Proof.
  unfold heap_abc. rewrite <- app_assoc. simpl.
  now apply list_lookup_middle.
Qed.

Lemma heap_abc_c (hp : heap) :
  heap_abc hp !! S (length hp) = Some (CBuildLink (link_c hp)).
Proof.
  unfold heap_abc. apply list_lookup_middle.
  rewrite length_app. simpl. lia.
Qed.

Lemma Build_abc_eq (P : program) (hp : heap) :
  Build P [VString "a"; VString "b"; VString "c"] hp =
  Ret (VPtr TBuildLink (S (length hp)), heap_abc hp).
Proof.
  unfold Build, Build_loop, Build_step. simpl.
  rewrite length_app. simpl. rewrite Nat.add_1_r. reflexivity.
Qed.

(** C1. [Build("a","b","c")] returns a chain head [c] on which [Is] finds
    "a", "b" and "c" but not "d"; [As] into a string variable stores "c";
    and after one [Unwrap] of [c], [As] on the node obtained stores "b". *)
Theorem Build_abc_chain (P : program) (hp : heap) (a : addr) (n : nat) :
  a < length hp ->
  exists (c c' : value) (hp1 hp2 hp3 : heap),
    Build P [VString "a"; VString "b"; VString "c"] hp = Ret (c, hp1) /\
    Is P (4 + n) c (VString "a") hp1 = Ret (true, hp1) /\
    Is P (4 + n) c (VString "b") hp1 = Ret (true, hp1) /\
    Is P (4 + n) c (VString "c") hp1 = Ret (true, hp1) /\
    Is P (4 + n) c (VString "d") hp1 = Ret (false, hp1) /\
    As P (4 + n) c (VPtr TString a) hp1 = Ret (true, hp2) /\
    hp2 !! a = Some (CVal (VString "c")) /\
    Unwrap P c hp2 = Ret ((c', true), hp2) /\
    As P (4 + n) c' (VPtr TString a) hp2 = Ret (true, hp3) /\
    hp3 !! a = Some (CVal (VString "b")).
Proof.
  intros Ha.
  assert (Hlen : a < length (heap_abc hp)).
  { unfold heap_abc. rewrite !length_app. simpl. lia. }
  set (hp2 := <[a := CVal (VString "c")]> (heap_abc hp)).
  assert (Hb2 : hp2 !! length hp = Some (CBuildLink link_b)).
  { unfold hp2. rewrite list_lookup_insert_ne by lia. apply heap_abc_b. }
  assert (Hc2 : hp2 !! S (length hp) = Some (CBuildLink (link_c hp))).
  { unfold hp2. rewrite list_lookup_insert_ne by lia. apply heap_abc_c. }
  exists (VPtr TBuildLink (S (length hp))), (VPtr TBuildLink (length hp)),
    (heap_abc hp), hp2, (<[a := CVal (VString "b")]> hp2).
  split; [apply Build_abc_eq|].
  assert (HIs : forall s : string,
    Is P (4 + n) (VPtr TBuildLink (S (length hp))) (VString s) (heap_abc hp) =
    Ret ((String.eqb "c" s || String.eqb "b" s || String.eqb "a" s)%bool, heap_abc hp)).
  { intros s. cbn [Nat.add].
    rewrite (Is_at_buildLink _ _ _ _ _ _ (heap_abc_c hp)).
    cbn [link_c buildLink_Link Link_v Link_h]. rewrite iface_eq_strings. cbn [bind].
    destruct (String.eqb "c" s); [reflexivity|]. cbn [orb].
    rewrite DeepEqual_types by (simpl; discriminate). cbn [bind Holder_Get Ok Value negb].
    rewrite (Is_at_buildLink _ _ _ _ _ _ (heap_abc_b hp)).
    cbn [link_b buildLink_Link Link_v Link_h]. rewrite iface_eq_strings. cbn [bind].
    destruct (String.eqb "b" s); [reflexivity|]. cbn [orb].
    rewrite DeepEqual_types by (simpl; discriminate). cbn [bind Holder_Get Ok Value negb].
    apply Is_strings. }
  repeat split.
  - apply HIs.
  - apply HIs.
  - apply HIs.
  - apply HIs.
  - simpl Nat.add. rewrite As_pointer.
    rewrite (As_loop_at_buildLink _ _ _ _ _ _ _ _ (heap_abc_c hp)) by reflexivity.
    reflexivity.
  - unfold hp2. now apply list_lookup_insert_eq.
  - now rewrite (Unwrap_buildLink _ _ _ _ Hc2).
  - simpl Nat.add. rewrite As_pointer.
    rewrite (As_loop_at_buildLink _ _ _ _ _ _ _ _ Hb2) by reflexivity.
    reflexivity.
  - apply list_lookup_insert_eq. unfold hp2. rewrite length_insert. exact Hlen.
Qed.

(** The theorem at the heap that holds only the string variable. *)
Lemma Build_abc_chain_witness :
  0 < length [CVal (VString "")] /\
  exists (c c' : value) (hp1 hp2 hp3 : heap),
    Build plain [VString "a"; VString "b"; VString "c"] [CVal (VString "")] = Ret (c, hp1) /\
    Is plain 4 c (VString "a") hp1 = Ret (true, hp1) /\
    Is plain 4 c (VString "b") hp1 = Ret (true, hp1) /\
    Is plain 4 c (VString "c") hp1 = Ret (true, hp1) /\
    Is plain 4 c (VString "d") hp1 = Ret (false, hp1) /\
    As plain 4 c (VPtr TString 0) hp1 = Ret (true, hp2) /\
    hp2 !! 0 = Some (CVal (VString "c")) /\
    Unwrap plain c hp2 = Ret ((c', true), hp2) /\
    As plain 4 c' (VPtr TString 0) hp2 = Ret (true, hp3) /\
    hp3 !! 0 = Some (CVal (VString "b")).
Proof.
  split; [simpl; lia|].
  apply (Build_abc_chain plain [CVal (VString "")] 0 0). simpl. lia.
Defined.

(* ===================================================================== *)
(** * As on a nil value *)
(* ===================================================================== *)

(** C3. On the nil interface [reflect.TypeOf] is nil, and the loop of [As]
    calls [AssignableTo] on it: [As(nil, target)] panics for every valid
    target instead of returning false, and so does [As] on a chain that
    reaches a nil node without a match, such as the link built by
    [Build(nil, "a")] with an [int] target. *)
Theorem As_nil_value_panics (P : program) (n : nat) (elem : gotype) (a : addr) (hp : heap) :
  As P (2 + n) VNil (VPtr elem a) hp = Panic nil_dereference /\
  Build P [VNil; VString "a"] hp =
    Ret (VPtr TBuildLink (length hp), hp ++ [CBuildLink link_over_nil]) /\
  Unwrap P (VPtr TBuildLink (length hp)) (hp ++ [CBuildLink link_over_nil]) =
    Ret ((VNil, true), hp ++ [CBuildLink link_over_nil]) /\
  As P (4 + n) (VPtr TBuildLink (length hp)) (VPtr TInt a)
    (hp ++ [CBuildLink link_over_nil]) = Panic nil_dereference.
Proof.
  assert (Hk : (hp ++ [CBuildLink link_over_nil]) !! length hp =
               Some (CBuildLink link_over_nil)) by now apply list_lookup_middle.
  repeat split.
  - now rewrite (Unwrap_buildLink _ _ _ _ Hk).
  - cbn [Nat.add]. rewrite As_pointer.
    rewrite (As_loop_at_buildLink _ _ _ _ _ _ _ _ Hk) by reflexivity.
    cbn [link_over_nil buildLink_Link Link_v].
    change (As P (S (S n)) (VString "a") (VPtr TInt a) (hp ++ [CBuildLink link_over_nil]))
      with (Ret (A := bool * heap) (false, hp ++ [CBuildLink link_over_nil])).
    cbn [bind]. rewrite (Unwrap_buildLink _ _ _ _ Hk). reflexivity.
Qed.

(* ===================================================================== *)
(** * The panics of the package *)
(* ===================================================================== *)

Lemma has_method_plain (t : gotype) (c : capability) :
  has_method plain t c = true -> t = TPtr TLink \/ t = TPtr TBuildLink.
Proof.
  destruct t as [| | | |e| | | | | | | | | | |]; simpl; try discriminate.
  - destruct e; simpl; try discriminate; auto.
    destruct c; discriminate.
  - destruct c; discriminate.
Qed.

Lemma implements_plain (v : value) (c : capability) :
  implements plain v c = true -> default_node v.
Proof.
  unfold implements. destruct v; cbn [TypeOf]; try discriminate;
    intros H; apply has_method_plain in H as [H|H]; try discriminate H.
  - subst t. constructor.
  - subst t. constructor.
  - injection H as ->. constructor.
  - injection H as ->. constructor.
Qed.

(** What a method call answers when the client declares no methods. *)
Lemma call_Unwrap_plain (v : value) (hp : heap) :
  default_node v ->
  (exists r, call_Unwrap plain v hp = Ret (r, hp)) \/
  call_Unwrap plain v hp = Stuck \/
  call_Unwrap plain v hp = Panic nil_dereference.
Proof.
  intros []; cbn [call_Unwrap]; auto;
    destruct (hp !! a) as [[| |]|]; eauto.
Qed.

Lemma Unwrap_plain (v : value) (hp : heap) :
  (exists r, Unwrap plain v hp = Ret (r, hp)) \/
  Unwrap plain v hp = Stuck \/
  Unwrap plain v hp = Panic nil_dereference.
Proof.
  unfold Unwrap. destruct (implements plain v MUnwrap) eqn:Hi; cbn [negb]; [|eauto].
  apply call_Unwrap_plain. eapply implements_plain, Hi.
Qed.

Lemma call_As_plain (f : value -> value -> heap -> result (bool * heap))
    (v target : value) (hp : heap) :
  default_node v ->
  (exists w, call_As plain f v target hp = f w target hp) \/
  call_As plain f v target hp = Stuck \/
  call_As plain f v target hp = Panic nil_dereference.
Proof.
  intros []; cbn [call_As]; auto;
    destruct (hp !! a) as [[| |]|]; eauto.
Qed.

(** With no client methods, a panic of [As] on a valid target can only come
    from the Go runtime (a nil dereference). *)
Lemma As_plain_panic (n : nat) :
  forall (v : value) (elem : gotype) (a : addr) (hp : heap) (m : string),
    (As plain n v (VPtr elem a) hp = Panic m -> m = nil_dereference) /\
    (As_loop plain n (VPtr elem a) (mkTypeExample elem) v (VPtr elem a) hp = Panic m ->
     m = nil_dereference).
Proof.
  induction n as [|n IH]; intros v elem a hp m.
  - split; intros H; inversion H.
  - split.
    + rewrite As_pointer. apply IH.
    + rewrite As_loop_S.
      destruct (TypeOf v) as [t|] eqn:Et; cbn [AssignableFrom TypeExample_t bind].
      2:{ intros [= <-]. reflexivity. }
      destruct (AssignableTo plain t elem); cbn [Elem_Set bind];
        [discriminate|].
      assert (Hhook : forall r,
        (if implements plain v MAs
         then call_As plain (As plain n) v (VPtr elem a) hp
         else Ret (false, hp)) = r ->
        (exists b hp1, r = Ret (b, hp1)) \/ r = Stuck \/ r = NoFuel \/
        r = Panic nil_dereference).
      { intros r <-. destruct (implements plain v MAs) eqn:Hi; [|eauto].
        apply implements_plain in Hi.
        destruct (call_As_plain (As plain n) v (VPtr elem a) hp Hi)
          as [[w ->]|[->| ->]]; auto.
        destruct (As plain n w (VPtr elem a) hp) as [[b hp1]|m'| |] eqn:E; eauto.
        apply IH in E. subst m'. auto. }
      specialize (Hhook _ eq_refl).
      destruct Hhook as [(b & hp1 & ->)|[->|[->| ->]]]; cbn [bind];
        try discriminate; [|intros [= <-]; reflexivity].
      destruct b; [discriminate|].
      destruct (Unwrap_plain v hp1) as [[[v' ok] ->]|[->| ->]]; cbn [bind];
        try discriminate; [|intros [= <-]; reflexivity].
      destruct ok; cbn [negb]; [apply IH|discriminate].
Qed.

Lemma Build_step_plain (src dst : value) (hp : heap) :
  (exists r, Build_step plain src dst hp = Ret r) \/
  Build_step plain src dst hp = Stuck \/
  Build_step plain src dst hp = Panic nil_dereference.
Proof.
  unfold Build_step.
  destruct (implements plain dst MWrap) eqn:Hi.
  - apply implements_plain in Hi.
    destruct Hi; cbn [call_Wrap bind]; auto;
      destruct (hp !! a) as [[| |]|]; cbn [bind Link_Wrap buildLink_Wrap]; eauto.
  - cbn [bind buildLink_Wrap Link_Wrap negb]. eauto.
Qed.

Lemma Build_loop_plain_panic (rest : list value) :
  forall (src : value) (hp : heap) (m : string),
    Build_loop plain src rest hp = Panic m -> m = nil_dereference.
Proof.
  induction rest as [|dst rest IH]; intros src hp m; cbn [Build_loop].
  - discriminate.
  - destruct (Build_step_plain src dst hp) as [[[src' hp'] ->]|[->| ->]]; cbn [bind].
    + apply IH.
    + discriminate.
    + now intros [= <-].
Qed.

Lemma ValueOf_not_Nil (v : value) : Nil v = false -> ValueOf v = Some v.
Proof.
  unfold Nil, ValueOf.
  destruct (TypeOf v) as [t|]; [|discriminate].
  destruct (Kind t); try reflexivity; destruct (IsNil v); try reflexivity; discriminate.
Qed.

(** C7. [Build] with no value panics. [As] panics with the message "must
    not be nil" when the target is nil (a nil pointer included), and with the
    different message "must be a pointer" when the target is not nil but not
    a pointer. These are the only panics that the package itself raises:
    with a valid target (and no client methods) [As] never panics with one of
    the two messages, and [Build] on at least one value never panics with
    one of its own messages. A panic is not a returned boolean. *)
Theorem fatal_contract_violations (P : program) (n : nat) (v target : value) (hp : heap) :
  Build P [] hp = Panic build_zero /\
  (Nil target = true -> As P (S n) v target hp = Panic target_nil) /\
  (Nil target = false -> (forall t, TypeOf target = Some t -> Kind t <> KPtr) ->
   As P (S n) v target hp = Panic target_not_pointer) /\
  target_nil <> target_not_pointer /\
  (forall (elem : gotype) (a : addr) (m : string),
     As plain n v (VPtr elem a) hp = Panic m ->
     m <> target_nil /\ m <> target_not_pointer) /\
  (forall (x : value) (rest : list value) (m : string),
     Build plain (x :: rest) hp = Panic m -> m <> build_zero /\ m <> wrap_false) /\
  (forall (m : string) (b : bool) (hp' : heap), Panic m <> Ret (b, hp')).
Proof.
  split; [reflexivity|]. split; [|split; [|split; [|split; [|split]]]].
  - intros Hn. unfold As. unfold Nil in Hn.
    destruct (ValueOf target); [discriminate|reflexivity].
  - intros Hn Hk. unfold As. rewrite (ValueOf_not_Nil _ Hn).
    unfold MakeTypeExample.
    destruct (TypeOf target) as [t|] eqn:Et.
    + rewrite (bool_decide_eq_false_2 _ (Hk t eq_refl)). reflexivity.
    + destruct target; discriminate.
  - discriminate.
  - intros elem a m Hm. apply As_plain_panic in Hm. subst m.
    split; discriminate.
  - intros x rest m. unfold Build.
    destruct rest as [|y rest]; [discriminate|].
    intros Hm. apply Build_loop_plain_panic in Hm. subst m. split; discriminate.
  - discriminate.
Qed.

(** The two panics of the tests: [As(nil, nil)] and [As(nil, "")]. *)
Lemma fatal_contract_violations_witness :
  As plain 1 VNil VNil [] = Panic target_nil /\
  As plain 1 VNil (VString "") [] = Panic target_not_pointer.
Proof.
  pose proof (fatal_contract_violations plain 0 VNil VNil []) as (_ & H1 & _).
  pose proof (fatal_contract_violations plain 0 VNil (VString "") []) as (_ & _ & H2 & _).
  split.
  - apply H1. reflexivity.
  - apply H2; [reflexivity|]. intros t [= <-]. discriminate.
Defined.

(* ===================================================================== *)
(** * As: the order of the tests and the first match *)
(* ===================================================================== *)

Lemma As_loop_no_match (P : program) (n : nat) (elem : gotype) (a : addr)
    (v : value) (hp hp1 : heap) :
  As_no_match P n elem (VPtr elem a) v hp hp1 ->
  As_loop P (S n) (VPtr elem a) (mkTypeExample elem) v (VPtr elem a) hp =
  (u <- Unwrap P v hp1 ;;
   let '((v', ok), hp2) := u in
   if negb ok then Ret (false, hp2)
   else As_loop P n (VPtr elem a) (mkTypeExample elem) v' (VPtr elem a) hp2).
Proof.
  intros [(t & Et & Hna) Hhook]. rewrite As_loop_S, Et.
  cbn [AssignableFrom TypeExample_t bind]. rewrite Hna.
  destruct (implements P v MAs).
  - rewrite Hhook. reflexivity.
  - subst hp1. reflexivity.
Qed.

Lemma As_loop_skips (P : program) (elem : gotype) (a : addr) (N : nat) (v : value)
    (hp : heap) (m : nat) (w : value) (hpw : heap) :
  As_skips P elem (VPtr elem a) N v hp m w hpw ->
  As_loop P N (VPtr elem a) (mkTypeExample elem) v (VPtr elem a) hp =
  As_loop P m (VPtr elem a) (mkTypeExample elem) w (VPtr elem a) hpw.
Proof.
  induction 1 as [|n v hp hp1 v' hp2 m w hpw Hno Hun _ IH]; [reflexivity|].
  rewrite (As_loop_no_match _ _ _ _ _ _ _ Hno), Hun. cbn [bind negb]. exact IH.
Qed.

(** C2. In [As] with a valid target [&x] ([x] of type [elem]), at each node
    the assignability of the node's dynamic type to [elem] is tested first:
    when it holds the node is stored in [x] and true is returned, whatever
    the node's [As] method would do. Only otherwise is the method called, and
    when it answers true, true is returned with the heap it left. Nodes that
    match neither way are passed over through [Unwrap], so the first node
    that matches decides the result, and nothing after it is looked at. *)
Theorem As_first_match (P : program) (elem : gotype) (a : addr) :
  (forall (n : nat) (v : value) (hp : heap),
     As P (S n) v (VPtr elem a) hp =
     As_loop P n (VPtr elem a) (mkTypeExample elem) v (VPtr elem a) hp) /\
  (forall (n : nat) (v : value) (t : gotype) (hp : heap),
     TypeOf v = Some t -> AssignableTo P t elem = true ->
     As_loop P (S n) (VPtr elem a) (mkTypeExample elem) v (VPtr elem a) hp =
     Ret (true, <[a := CVal v]> hp)) /\
  (forall (n : nat) (v : value) (t : gotype) (hp hp1 : heap),
     TypeOf v = Some t -> AssignableTo P t elem = false ->
     implements P v MAs = true ->
     call_As P (As P n) v (VPtr elem a) hp = Ret (true, hp1) ->
     As_loop P (S n) (VPtr elem a) (mkTypeExample elem) v (VPtr elem a) hp =
     Ret (true, hp1)) /\
  (forall (N : nat) (v : value) (hp : heap) (m : nat) (w : value) (t : gotype)
          (hpw : heap),
     As_skips P elem (VPtr elem a) N v hp (S m) w hpw ->
     TypeOf w = Some t -> AssignableTo P t elem = true ->
     As_loop P N (VPtr elem a) (mkTypeExample elem) v (VPtr elem a) hp =
     Ret (true, <[a := CVal w]> hpw)) /\
  (forall (N : nat) (v : value) (hp : heap) (m : nat) (w : value) (t : gotype)
          (hpw hp1 : heap),
     As_skips P elem (VPtr elem a) N v hp (S m) w hpw ->
     TypeOf w = Some t -> AssignableTo P t elem = false ->
     implements P w MAs = true ->
     call_As P (As P m) w (VPtr elem a) hpw = Ret (true, hp1) ->
     As_loop P N (VPtr elem a) (mkTypeExample elem) v (VPtr elem a) hp =
     Ret (true, hp1)).
Proof.
  assert (Hassign : forall n v t hp,
    TypeOf v = Some t -> AssignableTo P t elem = true ->
    As_loop P (S n) (VPtr elem a) (mkTypeExample elem) v (VPtr elem a) hp =
    Ret (true, <[a := CVal v]> hp)).
  { intros n v t hp Et Ha. rewrite As_loop_S, Et.
    cbn [AssignableFrom TypeExample_t bind]. rewrite Ha. reflexivity. }
  assert (Hhook : forall n v t hp hp1,
    TypeOf v = Some t -> AssignableTo P t elem = false ->
    implements P v MAs = true ->
    call_As P (As P n) v (VPtr elem a) hp = Ret (true, hp1) ->
    As_loop P (S n) (VPtr elem a) (mkTypeExample elem) v (VPtr elem a) hp =
    Ret (true, hp1)).
  { intros n v t hp hp1 Et Ha Hi Hc. rewrite As_loop_S, Et.
    cbn [AssignableFrom TypeExample_t bind]. rewrite Ha, Hi, Hc. reflexivity. }
  split; [intros; apply As_pointer|].
  split; [exact Hassign|]. split; [exact Hhook|]. split.
  - intros N v hp m w t hpw Hs Et Ha.
    rewrite (As_loop_skips _ _ _ _ _ _ _ _ _ Hs). eapply Hassign; eassumption.
  - intros N v hp m w t hpw hp1 Hs Et Ha Hi Hc.
    rewrite (As_loop_skips _ _ _ _ _ _ _ _ _ Hs). eapply Hhook; eassumption.
Qed.

(** The test of the search order: in the chain w3, w2, u2 only u2 can be
    assigned to a [*unwrappable2] variable, and [As(w3, &uw2)] stores it. *)
Lemma As_first_match_witness :
  As client 4 (VPtr (TNamed "unwrappable") 6) (VPtr (TPtr (TNamed "unwrappable2")) 7)
    test_heap =
  Ret (true, <[7 := CVal (VPtr (TNamed "unwrappable2") 4)]> test_heap).
Proof.
  destruct (As_first_match client (TPtr (TNamed "unwrappable2")) 7)
    as (H0 & _ & _ & H & _).
  rewrite H0.
  apply (H 3 _ _ 0 (VPtr (TNamed "unwrappable2") 4) (TPtr (TNamed "unwrappable2")) test_heap).
  - eapply As_skips_next with (hp1 := test_heap).
    + split; [eexists; split; reflexivity|reflexivity].
    + reflexivity.
    + eapply As_skips_next with (hp1 := test_heap).
      * split; [eexists; split; reflexivity|reflexivity].
      * reflexivity.
      * apply As_skips_here.
  - reflexivity.
  - reflexivity.
Defined.

(* ===================================================================== *)
(** * As: a method that answers false *)
(* ===================================================================== *)

(** C6, as the claim has it, fails: in the chain of [Build("a", 5)] the
    head's [As] method answers false for a string target, and yet [As] goes
    on to the predecessor "a", returns true and overwrites the variable. *)
Lemma As_hook_false_does_not_stop :
  call_As plain (As plain 3) (VPtr TBuildLink 1) (VPtr TString 0) heap_a5 =
    Ret (false, heap_a5) /\
  As plain 5 (VPtr TBuildLink 1) (VPtr TString 0) heap_a5 =
    Ret (true, <[0 := CVal (VString "a")]> heap_a5) /\
  Build plain [VString "a"; VInt 5] [CVal (VString "")] =
    Ret (VPtr TBuildLink 1, heap_a5).
Proof. repeat split. Qed.

(** C6, amended. When the node is not assignable and its [As] method answers
    false, [As] writes nothing at that node and goes on with [Unwrap]: it
    returns false there only when the node has no predecessor, and then the
    heap is the one the method left (a sentinel in the target variable is
    still there if the method did not touch it); it continues with the
    predecessor otherwise. *)
Theorem As_hook_false_continues (P : program) (n : nat) (elem t : gotype) (a : addr)
    (v : value) (hp hp1 : heap) :
  TypeOf v = Some t -> AssignableTo P t elem = false ->
  implements P v MAs = true ->
  call_As P (As P n) v (VPtr elem a) hp = Ret (false, hp1) ->
  As P (S (S n)) v (VPtr elem a) hp =
    (u <- Unwrap P v hp1 ;;
     let '((v', ok), hp2) := u in
     if negb ok then Ret (false, hp2)
     else As_loop P n (VPtr elem a) (mkTypeExample elem) v' (VPtr elem a) hp2) /\
  (implements P v MUnwrap = false ->
   As P (S (S n)) v (VPtr elem a) hp = Ret (false, hp1)) /\
  (forall (v' : value) (hp2 : heap),
     Unwrap P v hp1 = Ret ((v', false), hp2) ->
     As P (S (S n)) v (VPtr elem a) hp = Ret (false, hp2)).
Proof.
  intros Et Hna Hi Hc.
  assert (Hno : As_no_match P n elem (VPtr elem a) v hp hp1).
  { split; [eauto|]. now rewrite Hi. }
  assert (E := As_loop_no_match _ _ _ _ _ _ _ Hno).
  rewrite As_pointer, E. split; [reflexivity|]. split.
  - intros Hu. unfold Unwrap. rewrite Hu. reflexivity.
  - intros v' hp2 ->. reflexivity.
Qed.

(** The test of the false case: [As(am, &hs2)] with hs2 = "olleh" leaves the
    heap as it was. *)
Lemma As_hook_false_continues_witness :
  As client 2 (VPtr (TNamed "asMatcher") 1) (VPtr TString 3) test_heap =
    Ret (false, test_heap) /\
  test_heap !! 3 = Some (CVal (VString "olleh")).
Proof.
  split; [|reflexivity].
  apply (As_hook_false_continues client 0 TString (TPtr (TNamed "asMatcher")) 3
           (VPtr (TNamed "asMatcher") 1) test_heap test_heap);
    reflexivity.
Defined.

(* ===================================================================== *)
(** * Is: the nil guard and the advance through Unwrap *)
(* ===================================================================== *)

(** C5, as the claim has it, fails: a nil [*sentinel] and the nil target are
    both nil with different types, and [Is] returns false at once, although
    the node has a predecessor (nil) that matches the target. *)
Lemma Is_nil_guard_does_not_advance :
  Nil nil_sentinel = true /\ Nil VNil = true /\
  Unwrap client nil_sentinel [] = Ret ((VNil, true), []) /\
  Is client 3 VNil VNil [] = Ret (true, []) /\
  Is client 3 nil_sentinel VNil [] = Ret (false, []).
Proof. repeat split. Qed.

(** C5, amended. When the node and the target are both nil, [Is] returns at
    once whether their dynamic types are identical, without calling a method
    or [Unwrap]: [Is(nil, nil)] is true and [Is] of nil and a nil pointer to a slice is
    false.
    Otherwise, when neither the node's [Is] method nor deep equality matches,
    [Is] advances through [Unwrap], and returns false when the node has no
    predecessor. *)
Theorem Is_nil_guard_and_advance (P : program) (n : nat) (v target : value) (hp : heap) :
  (Nil v = true -> Nil target = true ->
   Is P (S n) v target hp = Ret (bool_decide (TypeOf v = TypeOf target), hp)) /\
  Is P (S n) VNil VNil hp = Ret (true, hp) /\
  (forall T : gotype,
     Is P (S n) VNil (VNilRef (TPtr (TSlice T))) hp = Ret (false, hp) /\
     Is P (S n) VNil (VNilRef (TSlice T)) hp = Ret (false, hp) /\
     Is P (S n) (VNilRef (TSlice T)) (VNilRef (TSlice T)) hp = Ret (true, hp)) /\
  (forall (hp1 hp2 : heap) (v' : value) (ok : bool),
     Nil v && Nil target = false ->
     Is_no_match P n target v hp hp1 ->
     Unwrap P v hp1 = Ret ((v', ok), hp2) ->
     Is P (S n) v target hp =
     if ok then Is P n v' target hp2 else Ret (false, hp2)).
Proof.
  split; [|split; [|split]].
  - intros Hv Ht. rewrite Is_S, Hv, Ht. reflexivity.
  - reflexivity.
  - intros T. split; [reflexivity|]. split; [reflexivity|].
    rewrite Is_S. cbn [Nil ValueOf TypeOf Kind IsNil andb].
    now rewrite bool_decide_eq_true_2.
  - intros hp1 hp2 v' ok Hnil [Hhook Hdeep] Hun.
    rewrite Is_S, Hnil.
    destruct (implements P v MIs).
    + rewrite Hhook. cbn [bind]. rewrite Hdeep. cbn [bind]. rewrite Hun.
      cbn [bind]. now destruct ok.
    + subst hp1. cbn [bind]. rewrite Hdeep. cbn [bind]. rewrite Hun.
      cbn [bind]. now destruct ok.
Qed.

(** From the test heap: w2 is not the string "x", and [Is] goes on with the
    node it wraps. *)
Lemma Is_nil_guard_and_advance_witness :
  Is client 2 (VPtr (TNamed "unwrappable") 5) (VString "x") test_heap =
  Is client 1 (VPtr (TNamed "unwrappable2") 4) (VString "x") test_heap.
Proof.
  destruct (Is_nil_guard_and_advance client 1 (VPtr (TNamed "unwrappable") 5)
              (VString "x") test_heap) as (_ & _ & _ & H).
  apply (H test_heap test_heap (VPtr (TNamed "unwrappable2") 4) true).
  - reflexivity.
  - split; reflexivity.
  - reflexivity.
Defined.

(* ===================================================================== *)
(** * Is: the method first, deep equality as the fallback *)
(* ===================================================================== *)

(** Induction on values, with the elements of slices and arrays and the
    fields of structs. *)
Lemma value_ind_nested (Q : value -> Prop) :
  Q VNil ->
  (forall b, Q (VBool b)) ->
  (forall z, Q (VInt z)) ->
  (forall f, Q (VFloat f)) ->
  (forall s, Q (VString s)) ->
  (forall t, Q (VNilRef t)) ->
  (forall elem a, Q (VPtr elem a)) ->
  (forall elem a xs, Forall Q xs -> Q (VSlice elem a xs)) ->
  (forall elem xs, Forall Q xs -> Q (VArray elem xs)) ->
  (forall key elem a es, Q (VMap key elem a es)) ->
  (forall elem a, Q (VChan elem a)) ->
  (forall sig a, Q (VFunc sig a)) ->
  (forall name fs, Forall Q fs -> Q (VStruct name fs)) ->
  forall x, Q x.
Proof.
  intros HNil HBool HInt HFloat HString HNilRef HPtr HSlice HArray HMap HChan
    HFunc HStruct.
  fix IH 1.
  intros [|b|z|f|s|t|elem a|elem a xs|elem xs|key elem a es|elem a|sig a|name fs].
  - exact HNil.
  - apply HBool.
  - apply HInt.
  - apply HFloat.
  - apply HString.
  - apply HNilRef.
  - apply HPtr.
  - apply HSlice. induction xs as [|x xs IHxs]; constructor; [apply IH|exact IHxs].
  - apply HArray. induction xs as [|x xs IHxs]; constructor; [apply IH|exact IHxs].
  - apply HMap.
  - apply HChan.
  - apply HFunc.
  - apply HStruct. induction fs as [|f fs IHfs]; constructor; [apply IH|exact IHfs].
Qed.

Lemma float_eq_refl (f : float64) : float_isNaN f = false -> float_eq f f = true.
Proof. intros H. unfold float_eq. now rewrite H, Z.eqb_refl. Qed.

Lemma deep_in_order_refl
    (deep : value -> value -> list visit -> result (bool * list visit))
    (xs : list value) :
  Forall (fun x => forall vis, exists vis', deep x x vis = Ret (true, vis')) xs ->
  forall vis, exists vis', deep_in_order deep xs xs vis = Ret (true, vis').
Proof.
  induction 1 as [|x xs Hx _ IH]; intros vis; cbn [deep_in_order]; [eauto|].
  destruct (Hx vis) as [vis1 ->]. cbn [bind]. apply IH.
Qed.

(** A value that holds neither a function nor a not-a-number is deeply
    equal to itself, and no pointer has to be followed to see it. *)
Lemma deepValueEqualWith_refl
    (follow : addr -> addr -> list visit -> result (bool * list visit))
    (x : value) :
  holds_func_or_NaN x = false ->
  forall vis, exists vis', deepValueEqualWith follow x x vis = Ret (true, vis').
Proof.
  induction x as [|b|z|f|s|t|elem a|elem a xs _|elem xs IH|key elem a es|elem a
                  |sig a|name fs IH]
    using value_ind_nested; intros Hf vis; cbn [deepValueEqualWith TypeOf];
    rewrite ?bool_decide_eq_true_2 by reflexivity; cbn [negb].
  - eauto.
  - rewrite eqb_reflx. eauto.
  - rewrite Z.eqb_refl. eauto.
  - rewrite float_eq_refl by exact Hf. eauto.
  - rewrite String.eqb_refl. eauto.
  - eauto.
  - destruct (visited vis _); [eauto|]. rewrite Nat.eqb_refl. eauto.
  - rewrite !Nat.eqb_refl. eauto.
  - apply deep_in_order_refl. cbn [holds_func_or_NaN] in Hf.
    rewrite Forall_forall in IH |- *. intros x Hx. apply (IH x Hx).
    destruct (holds_func_or_NaN x) eqn:E; [|reflexivity].
    assert (existsb holds_func_or_NaN xs = true); [|congruence].
    apply existsb_exists. exists x. split; [now apply list_elem_of_In|exact E].
  - rewrite !Nat.eqb_refl. eauto.
  - rewrite Nat.eqb_refl. eauto.
  - discriminate Hf.
  - apply deep_in_order_refl. cbn [holds_func_or_NaN] in Hf.
    rewrite Forall_forall in IH |- *. intros x Hx. apply (IH x Hx).
    destruct (holds_func_or_NaN x) eqn:E; [|reflexivity].
    assert (existsb holds_func_or_NaN fs = true); [|congruence].
    apply existsb_exists. exists x. split; [now apply list_elem_of_In|exact E].
Qed.

Lemma DeepEqual_refl (n : nat) (hp : heap) (x : value) :
  holds_func_or_NaN x = false -> DeepEqual n hp x x = Ret true.
Proof.
  intros H. unfold DeepEqual. rewrite deepValueEqual_eq.
  match goal with
  | |- context [deepValueEqualWith ?f x x []] =>
    destruct (deepValueEqualWith_refl f x H []) as [vis' ->]
  end.
  reflexivity.
Qed.

(** Deeply equal values have one dynamic type. *)
Lemma DeepEqual_true_types (n : nat) (hp : heap) (x y : value) :
  DeepEqual n hp x y = Ret true -> TypeOf x = TypeOf y.
Proof.
  intros H. destruct (decide (TypeOf x = TypeOf y)) as [E|E]; [exact E|].
  rewrite (DeepEqual_types n hp x y E) in H. discriminate.
Qed.

(** Two distinct pointers of one type to cells that hold the same value,
    itself free of functions and not-a-numbers, are deeply equal. *)
Lemma DeepEqual_copies (n : nat) (hp : heap) (t : gotype) (a b : addr) (x : value) :
  hp !! a = Some (CVal x) -> hp !! b = Some (CVal x) ->
  holds_func_or_NaN x = false ->
  DeepEqual (S n) hp (VPtr t a) (VPtr t b) = Ret true.
Proof.
  intros Ha Hb Hx. unfold DeepEqual. rewrite deepValueEqual_eq.
  cbn [deepValueEqualWith TypeOf visited existsb].
  rewrite bool_decide_eq_true_2 by reflexivity. cbn [negb].
  destruct (Nat.eqb a b); [reflexivity|].
  rewrite Ha, Hb. cbn [deepCellEqual]. rewrite deepValueEqual_eq.
  match goal with
  | |- context [deepValueEqualWith ?f x x ?vis] =>
    destruct (deepValueEqualWith_refl f x Hx vis) as [vis' ->]
  end.
  reflexivity.
Qed.

(** C4, as the claim has it, fails on three inputs. A non-nil function value
    is not deeply equal to itself, and neither is a not-a-number, so
    [Is(f, f)] and [Is(math.NaN(), math.NaN())] are false. And the method of
    a nil [*sentinel] answers true for the nil target, yet [Is] returns
    false, because both are nil and their types differ. *)
Lemma Is_not_reflexive_everywhere :
  Nil (VFunc "func()" 0) = false /\
  Is plain 3 (VFunc "func()" 0) (VFunc "func()" 0) [] = Ret (false, []) /\
  Nil (VFloat NaN) = false /\
  Is plain 3 (VFloat NaN) (VFloat NaN) [] = Ret (false, []) /\
  call_Is client nil_sentinel VNil [] = Ret (true, []) /\
  Is client 3 nil_sentinel VNil [] = Ret (false, []).
Proof. repeat split. Qed.

(** C4, amended. Unless the node and the target are both nil, a node whose
    [Is] method answers true matches, whatever deep equality says (the method
    is called first); and when there is no method or it answers false, a node
    deeply equal to the target matches. So [Is(v, v)] is true for every [v]
    that holds neither a function nor a not-a-number (in itself, in a field
    of a struct or in an element of an array) and whose method, if any,
    returns; and a pointer matches another pointer of the same type to a copy
    of the same such value, with no method at all. *)
Theorem Is_method_then_deep_equality (P : program) (n : nat) (v target : value)
    (hp : heap) :
  (forall hp1 : heap,
     Nil v && Nil target = false ->
     implements P v MIs = true ->
     call_Is P v target hp = Ret (true, hp1) ->
     Is P (S n) v target hp = Ret (true, hp1)) /\
  (forall hp1 : heap,
     Nil v && Nil target = false ->
     (if implements P v MIs
      then call_Is P v target hp = Ret (false, hp1)
      else hp1 = hp) ->
     DeepEqual n hp1 v target = Ret true ->
     Is P (S n) v target hp = Ret (true, hp1)) /\
  (holds_func_or_NaN v = false ->
   (implements P v MIs = true -> Nil v = false ->
    exists (b : bool) (hp1 : heap), call_Is P v v hp = Ret (b, hp1)) ->
   exists hp1 : heap, Is P (S n) v v hp = Ret (true, hp1)) /\
  (forall (t : gotype) (a b : addr) (x : value),
     implements P (VPtr t a) MIs = false ->
     hp !! a = Some (CVal x) -> hp !! b = Some (CVal x) ->
     holds_func_or_NaN x = false ->
     Is P (S (S n)) (VPtr t a) (VPtr t b) hp = Ret (true, hp)).
Proof.
  assert (Hhook : forall w tg hp1,
    Nil w && Nil tg = false ->
    implements P w MIs = true ->
    call_Is P w tg hp = Ret (true, hp1) ->
    Is P (S n) w tg hp = Ret (true, hp1)).
  { intros w tg hp1 Hnil Hi Hc. rewrite Is_S, Hnil, Hi, Hc. reflexivity. }
  assert (Hdeep : forall m w tg hp1,
    Nil w && Nil tg = false ->
    (if implements P w MIs
     then call_Is P w tg hp = Ret (false, hp1)
     else hp1 = hp) ->
    DeepEqual m hp1 w tg = Ret true ->
    Is P (S m) w tg hp = Ret (true, hp1)).
  { intros m w tg hp1 Hnil Hc Hd. rewrite Is_S, Hnil.
    destruct (implements P w MIs).
    - rewrite Hc. cbn [bind]. rewrite Hd. reflexivity.
    - subst hp1. cbn [bind]. rewrite Hd. reflexivity. }
  split; [apply Hhook|]. split; [apply Hdeep|]. split.
  - intros Hf Hret.
    destruct (Nil v) eqn:Hn.
    + exists hp. rewrite Is_S, Hn. cbn [andb].
      now rewrite bool_decide_eq_true_2.
    + assert (Hnil : Nil v && Nil v = false) by now rewrite Hn.
      destruct (implements P v MIs) eqn:Hi.
      * destruct (Hret eq_refl eq_refl) as (b & hp1 & Hc). exists hp1.
        destruct b; [now apply Hhook|].
        apply Hdeep; [exact Hnil|now rewrite Hi|now apply DeepEqual_refl].
      * exists hp.
        apply Hdeep; [exact Hnil|now rewrite Hi|now apply DeepEqual_refl].
  - intros t a b x Hi Ha Hb Hx.
    apply Hdeep; [reflexivity|now rewrite Hi|].
    now apply (DeepEqual_copies n hp t a b x).
Qed.

(** From the tests: [Is(w1, &unwrappable{})] for two distinct pointers to
    equal structs, and [Is(m1, &unwrappable{})] through the method of
    [isMatcher]. The heap holds w1, a copy, and m1 with [to] a second copy. *)
Lemma Is_method_then_deep_equality_witness :
  let empty := CVal (VStruct "unwrappable" [VStruct "chain.Holder" [VNil; VBool false]]) in
  let hp := [empty; empty; empty; CVal (VStruct "isMatcher" [VPtr (TNamed "unwrappable") 2])] in
  Is client 2 (VPtr (TNamed "unwrappable") 0) (VPtr (TNamed "unwrappable") 1) hp =
    Ret (true, hp) /\
  Is client 1 (VPtr (TNamed "isMatcher") 3) (VPtr (TNamed "unwrappable") 1) hp =
    Ret (true, hp) /\
  (exists hp1, Is client 1 (VPtr (TNamed "isMatcher") 3) (VPtr (TNamed "isMatcher") 3) hp =
    Ret (true, hp1)).
Proof.
  intros empty hp.
  destruct (Is_method_then_deep_equality client 0 (VPtr (TNamed "unwrappable") 0)
              (VPtr (TNamed "unwrappable") 1) hp) as (_ & _ & _ & H4).
  destruct (Is_method_then_deep_equality client 0 (VPtr (TNamed "isMatcher") 3)
              (VPtr (TNamed "unwrappable") 1) hp) as (H1 & _ & H3 & _).
  split; [|split].
  - eapply H4; reflexivity.
  - apply H1; reflexivity.
  - apply H3; [reflexivity|]. intros _ _. eexists _, _. reflexivity.
Defined.

(* ===================================================================== *)
(** * Link.Is compares with == *)
(* ===================================================================== *)







(* ===================================================================== *)
(** * What the operations change in the heap *)
(* ===================================================================== *)



(** With no client methods, [As] leaves the heap as it is when it returns
    false, and changes only the target variable when it returns true. *)
Lemma As_plain_frame (n : nat) :
  forall (v : value) (elem : gotype) (a : addr) (hp : heap) (b : bool) (hp' : heap),
    (As plain n v (VPtr elem a) hp = Ret (b, hp') ->
     if b then exists w, hp' = <[a := CVal w]> hp else hp' = hp) /\
    (As_loop plain n (VPtr elem a) (mkTypeExample elem) v (VPtr elem a) hp = Ret (b, hp') ->
     if b then exists w, hp' = <[a := CVal w]> hp else hp' = hp).
Proof.
  induction n as [|n IH]; intros v elem a hp b hp'.
  - split; intros H; inversion H.
  - split.
    + rewrite As_pointer. apply IH.
    + rewrite As_loop_S.
      destruct (TypeOf v) as [t|] eqn:Et; cbn [AssignableFrom TypeExample_t bind];
        [|discriminate].
      destruct (AssignableTo plain t elem); cbn [Elem_Set bind].
      { intros [= <- <-]. eauto. }
      destruct (implements plain v MAs) eqn:Hi.
      * apply implements_plain in Hi.
        destruct (call_As_plain (As plain n) v (VPtr elem a) hp Hi)
          as [[w ->]|[->| ->]]; cbn [bind]; try discriminate.
        destruct (As plain n w (VPtr elem a) hp) as [[b1 hp1]|m'| |] eqn:E;
          cbn [bind]; try discriminate.
        apply IH in E. destruct b1.
        { intros [= <- <-]. exact E. }
        subst hp1.
        destruct (Unwrap_plain v hp) as [[[v' ok] ->]|[->| ->]]; cbn [bind];
          try discriminate.
        destruct ok; cbn [negb]; [apply IH|now intros [= <- <-]].
      * cbn [bind].
        destruct (Unwrap_plain v hp) as [[[v' ok] ->]|[->| ->]]; cbn [bind];
          try discriminate.
        destruct ok; cbn [negb]; [apply IH|now intros [= <- <-]].
Qed.

(** One iteration of [Build] on a value without [Wrap] allocates a node and
    touches nothing else. *)
Lemma Build_step_fresh (P : program) (src dst : value) (hp : heap) :
  implements P dst MWrap = false ->
  Build_step P src dst hp =
  Ret (VPtr TBuildLink (length hp),
       hp ++ [CBuildLink (mkBuildLink (mkLink (mkHolder src true) dst))]).
Proof. intros Hi. unfold Build_step. rewrite Hi. reflexivity. Qed.










(* ===================================================================== *)
(** * Package x: what is nil, what is a type example *)
(* ===================================================================== *)

Lemma Nil_cases (v : value) :
  Nil v = true ->
  v = VNil \/ exists t : gotype, v = VNilRef t /\ nilable (Kind t) = true.
Proof.
  unfold Nil, ValueOf.
  destruct v; cbn [TypeOf IsNil Kind]; auto; try discriminate.
  destruct (Kind t) eqn:Ek; try discriminate; intros _; right; exists t;
    rewrite Ek; auto.
Qed.

(** X1. [x.Nil] is true exactly on the nil interface and on the nil values
    of chan, func, map, pointer and slice types; on every other value
    [x.ValueOf] succeeds and returns the value itself. *)
Theorem Nil_exactly_nil_references (v : value) :
  (Nil v = true <->
   v = VNil \/ exists t : gotype, v = VNilRef t /\ nilable (Kind t) = true) /\
  (forall w : value, ValueOf v = Some w -> w = v /\ Nil v = false) /\
  (Nil v = false -> ValueOf v = Some v).
Proof.
  split; [|split].
  - split; [apply Nil_cases|].
    unfold Nil, ValueOf. intros [->|(t & -> & Hk)]; [reflexivity|].
    cbn [TypeOf IsNil]. destruct (Kind t); try discriminate Hk; reflexivity.
  - intros w. unfold Nil, ValueOf.
    destruct (TypeOf v) as [t|]; [|discriminate].
    destruct (Kind t); try (now intros [= <-]);
      destruct (IsNil v); try discriminate; now intros [= <-].
  - apply ValueOf_not_Nil.
Qed.

Lemma MakeTypeExample_cases (example : value) :
  MakeTypeExample example =
  match TypeOf example with
  | None => Panic nil_dereference
  | Some (TPtr elem) => Ret (inr (mkTypeExample elem))
  | Some _ => Ret (inl ErrIncorrectType)
  end.
Proof.
  unfold MakeTypeExample. destruct (TypeOf example) as [[]|]; reflexivity.
Qed.

(** X2. [x.MakeTypeExample] succeeds exactly on an example of pointer type
    (a nil pointer is as good as any), and the example it returns has the
    pointee type; on any other typed value it returns [ErrIncorrectType]; on
    the nil interface it panics. *)
Theorem MakeTypeExample_pointers_only (example : value) :
  (forall e : TypeExample,
     MakeTypeExample example = Ret (inr e) <->
     TypeOf example = Some (TPtr (TypeExample_Type e))) /\
  (MakeTypeExample example = Ret (inl ErrIncorrectType) <->
   exists t : gotype, TypeOf example = Some t /\ Kind t <> KPtr) /\
  (MakeTypeExample example = Panic nil_dereference <-> example = VNil).
Proof.
  rewrite MakeTypeExample_cases. split; [|split].
  - intros [elem]. cbn [TypeExample_Type TypeExample_t].
    destruct (TypeOf example) as [[]|]; split; try discriminate; congruence.
  - destruct (TypeOf example) as [t|].
    + destruct t; split; try discriminate;
        try (intros _; eexists; split; [reflexivity|discriminate]);
        try reflexivity.
      intros (t' & [= <-] & Hk). now contradict Hk.
    + split; [discriminate|]. now intros (t & ? & _).
  - destruct (TypeOf example) as [t|] eqn:Et.
    + destruct t; split; try discriminate; intros ->; discriminate.
    + split; [|reflexivity]. intros _. destruct example; now try discriminate.
Qed.

(* ===================================================================== *)
(** * As and Is on a single value *)
(* ===================================================================== *)

(** X3. [As(v, &x)] succeeds at once and stores [v] itself when [x] is a
    variable of the dynamic type of [v], or of type [interface{}]; this holds
    for every typed value, whatever methods it has. *)
Theorem As_own_type_or_interface (P : program) (n : nat) (v : value) (t : gotype)
    (a : addr) (hp : heap) :
  TypeOf v = Some t ->
  As P (2 + n) v (VPtr t a) hp = Ret (true, <[a := CVal v]> hp) /\
  As P (2 + n) v (VPtr TEmptyIface a) hp = Ret (true, <[a := CVal v]> hp) /\
  (a < length hp -> <[a := CVal v]> hp !! a = Some (CVal v)).
Proof.
  intros Et. cbn [Nat.add]. rewrite !As_pointer, !As_loop_S, Et.
  cbn [AssignableFrom TypeExample_t bind]. unfold AssignableTo.
  rewrite bool_decide_eq_true_2 by reflexivity. cbn [orb Elem_Set bind].
  rewrite orb_true_r. cbn [Elem_Set bind]. repeat split.
  apply list_lookup_insert_eq.
Qed.

(** The test of the basic case: [As("abc", &ps)]. *)
Lemma As_own_type_or_interface_witness :
  As plain 2 (VString "abc") (VPtr TString 0) [CVal (VString "")] =
  Ret (true, [CVal (VString "abc")]).
Proof.
  apply (As_own_type_or_interface plain 0 (VString "abc") TString 0
           [CVal (VString "")]).
  reflexivity.
Defined.

(** On two nil values deep equality is the identity of the types. *)
Lemma DeepEqual_nils (n : nat) (hp : heap) (v target : value) :
  Nil v = true -> Nil target = true ->
  DeepEqual n hp v target = Ret (bool_decide (TypeOf v = TypeOf target)).
Proof.
  intros Hv Ht.
  destruct (decide (TypeOf v = TypeOf target)) as [E|E].
  - rewrite (bool_decide_eq_true_2 _ E).
    apply Nil_cases in Hv. apply Nil_cases in Ht.
    unfold DeepEqual. rewrite deepValueEqual_eq.
    destruct Hv as [->|(t & -> & _)], Ht as [->|(t' & -> & _)];
      try discriminate E; [reflexivity|].
    injection E as <-. cbn [deepValueEqualWith TypeOf].
    now rewrite bool_decide_eq_true_2.
  - rewrite (bool_decide_eq_false_2 _ E). now apply DeepEqual_types.
Qed.

Lemma Is_no_methods (P : program) (n : nat) (v target : value) (hp : heap) (b : bool) :
  implements P v MIs = false -> implements P v MUnwrap = false ->
  DeepEqual n hp v target = Ret b ->
  Is P (S n) v target hp = Ret (b, hp).
Proof.
  intros Hi Hu Hd. rewrite Is_S.
  destruct (Nil v && Nil target) eqn:Hnil.
  - apply andb_true_iff in Hnil as [Hv Ht].
    rewrite (DeepEqual_nils _ _ _ _ Hv Ht) in Hd. now injection Hd as <-.
  - rewrite Hi. cbn [bind]. rewrite Hd. cbn [bind].
    destruct b; [reflexivity|]. unfold Unwrap. rewrite Hu. reflexivity.
Qed.

(** X5. On a value whose type has neither [Is] nor [Unwrap], [Is] is
    [reflect.DeepEqual]: it returns what deep equality returns and leaves
    the heap alone. The nil guard does not change this, because on two nil
    values deep equality compares the types too. *)
Theorem Is_without_methods_is_DeepEqual (P : program) (n : nat) (v target : value)
    (hp : heap) (b : bool) :
  implements P v MIs = false -> implements P v MUnwrap = false ->
  DeepEqual n hp v target = Ret b ->
  Is P (S n) v target hp = Ret (b, hp).
Proof. apply Is_no_methods. Qed.

(** [Is] of two equal strings is true, and of an integer and a string
    false. *)
Lemma Is_without_methods_is_DeepEqual_witness :
  Is client 1 (VString "a") (VString "a") [] = Ret (true, []) /\
  Is client 1 (VInt 1) (VString "a") [] = Ret (false, []).
Proof.
  split.
  - apply (Is_without_methods_is_DeepEqual client 0); reflexivity.
  - apply (Is_without_methods_is_DeepEqual client 0); reflexivity.
Defined.

(* ===================================================================== *)
(** * Link: the held value and the wrapped value *)
(* ===================================================================== *)

Lemma Link_after_app (cs ds : list Link_call) :
  Link_after (cs ++ ds) = foldl Link_do (Link_after cs) ds.
Proof. unfold Link_after. apply foldl_app. Qed.

Lemma Link_wraps_keep_held (ws : list Link_call) :
  forall l : Link,
    Forall (fun c => is_wrap c = true) ws -> Link_v (foldl Link_do l ws) = Link_v l.
Proof.
  induction ws as [|c ws IH]; intros l HF; [reflexivity|].
  apply Forall_cons in HF as [Hc HF]. cbn [foldl]. rewrite (IH _ HF).
  destruct c; [discriminate Hc|reflexivity].
Qed.

Lemma Link_sets_keep_wrapped (ss : list Link_call) :
  forall l : Link,
    Forall (fun c => is_wrap c = false) ss -> Link_h (foldl Link_do l ss) = Link_h l.
Proof.
  induction ss as [|c ss IH]; intros l HF; [reflexivity|].
  apply Forall_cons in HF as [Hc HF]. cbn [foldl]. rewrite (IH _ HF).
  destruct c; [reflexivity|discriminate Hc].
Qed.

(** X12. The two slots of a [Link] do not disturb each other, and in each
    the last call wins: after any calls, [Set(v)] followed only by calls of
    [Wrap] leaves [v] as the held value (the one [Link.Is] compares), and
    [Wrap(w)] followed only by calls of [Set] leaves [Unwrap] answering
    (w, true). *)
Theorem Link_last_call_wins (cs : list Link_call) (v w : value) :
  (forall ws : list Link_call,
     Forall (fun c => is_wrap c = true) ws ->
     Link_v (Link_after (cs ++ CallSet v :: ws)) = v /\
     forall (P : program) (target : value),
       Link_Is P (Link_after (cs ++ CallSet v :: ws)) target = iface_eq P v target) /\
  (forall ss : list Link_call,
     Forall (fun c => is_wrap c = false) ss ->
     Link_Unwrap (Link_after (cs ++ CallWrap w :: ss)) = (w, true)).
Proof.
  split.
  - intros ws HF.
    assert (E : Link_v (Link_after (cs ++ CallSet v :: ws)) = v).
    { rewrite Link_after_app. cbn [foldl]. now rewrite Link_wraps_keep_held. }
    split; [exact E|]. intros P target. unfold Link_Is. now rewrite E.
  - intros ss HF. rewrite Link_after_app. cbn [foldl]. unfold Link_Unwrap.
    now rewrite Link_sets_keep_wrapped.
Qed.

(* ===================================================================== *)
(** * The chain that Build makes from values without Wrap *)
(* ===================================================================== *)

Lemma built_chain_extend (hp ext : heap) (head : value) (xs : list value) :
  built_chain hp head xs -> built_chain (hp ++ ext) head xs.
Proof.
  induction 1 as [x|a held below xs Ha _ IH]; [constructor|].
  econstructor; [|exact IH]. now apply lookup_app_l_Some.
Qed.

Lemma Build_loop_built (P : program) (rest : list value) :
  forall (src : value) (hp : heap) (xs : list value),
    Forall (fun x => implements P x MWrap = false) rest ->
    built_chain hp src xs ->
    exists (head : value) (new : heap),
      Build_loop P src rest hp = Ret (head, hp ++ new) /\
      length new = length rest /\
      built_chain (hp ++ new) head (rev rest ++ xs).
Proof.
  induction rest as [|dst rest IH]; intros src hp xs HF Hch; cbn [Build_loop].
  - exists src, []. rewrite app_nil_r. auto.
  - apply Forall_cons in HF as [Hd HF].
    rewrite (Build_step_fresh _ _ _ _ Hd). cbn [bind].
    set (node := CBuildLink (mkBuildLink (mkLink (mkHolder src true) dst))).
    assert (Hch' : built_chain (hp ++ [node]) (VPtr TBuildLink (length hp)) (dst :: xs)).
    { econstructor; [now apply list_lookup_middle|now apply built_chain_extend]. }
    destruct (IH _ _ _ HF Hch') as (head & new & E & Hlen & Hb).
    exists head, (node :: new). rewrite E.
    replace (hp ++ node :: new) with ((hp ++ [node]) ++ new)
      by now rewrite <- app_assoc.
    split; [reflexivity|]. split; [cbn; lia|].
    cbn [rev].
    replace ((rev rest ++ [dst]) ++ xs) with (rev rest ++ dst :: xs)
      by now rewrite <- app_assoc.
    exact Hb.
Qed.

(** X6. On values of which none after the first has a [Wrap] method, [Build]
    never fails, leaves the existing heap as it is and allocates exactly one
    node per value after the first; the head it returns is the stack of these
    nodes, which hold the values from the last to the second and end in the
    first value itself. *)
Theorem Build_allocates_one_node_per_value (P : program) (x : value)
    (rest : list value) (hp : heap) :
  Forall (fun y => implements P y MWrap = false) rest ->
  exists (head : value) (new : heap),
    Build P (x :: rest) hp = Ret (head, hp ++ new) /\
    length new = length rest /\
    built_chain (hp ++ new) head (rev rest ++ [x]).
Proof.
  intros HF.
  destruct (Build_loop_built P rest x hp [x] HF (built_first hp x))
    as (head & new & E & Hlen & Hb).
  exists head, new. split; [|auto].
  unfold Build. destruct rest as [|y rest]; [|exact E].
  cbn [Build_loop] in E. exact E.
Qed.

(** [Build("a", 5)]. *)
Lemma Build_allocates_one_node_per_value_witness :
  exists (head : value) (new : heap),
    Build plain [VString "a"; VInt 5] [CVal (VString "")] =
      Ret (head, [CVal (VString "")] ++ new) /\
    length new = 1 /\
    built_chain ([CVal (VString "")] ++ new) head [VInt 5; VString "a"].
Proof.
  apply (Build_allocates_one_node_per_value plain (VString "a") [VInt 5]
           [CVal (VString "")]).
  repeat constructor.
Defined.



Lemma simple_eqb_eq (x y : value) :
  simple x = true -> (simple_eqb x y = true <-> x = y).
Proof.
  destruct x; try discriminate; intros _; destruct y; cbn; split;
    try discriminate; try congruence.
  - intros H. apply eqb_prop in H. congruence.
  - intros [= ->]. apply eqb_reflx.
  - intros H. apply Z.eqb_eq in H. congruence.
  - intros [= ->]. apply Z.eqb_refl.
  - intros H. apply String.eqb_eq in H. congruence.
  - intros [= ->]. apply String.eqb_refl.
Qed.

Lemma iface_eq_simple (P : program) (x y : value) :
  simple x = true -> simple y = true -> iface_eq P x y = Ret (simple_eqb x y).
Proof.
  destruct x; try discriminate; destruct y; try discriminate; reflexivity.
Qed.

Lemma DeepEqual_simple (n : nat) (hp : heap) (x y : value) :
  simple x = true -> simple y = true -> DeepEqual n hp x y = Ret (simple_eqb x y).
Proof.
  intros Hx Hy. unfold DeepEqual. rewrite deepValueEqual_eq.
  destruct x; try discriminate; destruct y; try discriminate; reflexivity.
Qed.

Lemma simple_no_methods (P : program) (x : value) (c : capability) :
  simple x = true -> implements P x c = false.
Proof. destruct x; try discriminate; reflexivity. Qed.

Lemma Is_built_chain (P : program) (hp : heap) (head : value) (xs : list value)
    (target : value) :
  built_chain hp head xs ->
  Forall (fun x => simple x = true) xs -> simple target = true ->
  forall n : nat,
    Is P (length xs + n) head target hp =
    Ret (existsb (fun x => simple_eqb x target) xs, hp).
Proof.
  intros Hch HF Ht.
  induction Hch as [x|a held below xs Ha Hch IH]; intros n.
  - apply Forall_cons in HF as [Hx _]. cbn [length Nat.add existsb].
    rewrite orb_false_r.
    apply Is_no_methods;
      [now apply simple_no_methods|now apply simple_no_methods|].
    now apply DeepEqual_simple.
  - apply Forall_cons in HF as [Hh HF]. cbn [length Nat.add existsb].
    rewrite (Is_at_buildLink _ _ _ _ _ _ Ha).
    cbn [buildLink_Link Link_v Link_h]. rewrite (iface_eq_simple _ _ _ Hh Ht).
    cbn [bind]. destruct (simple_eqb held target); [reflexivity|].
    cbn [orb]. rewrite DeepEqual_types.
    2:{ destruct target; try discriminate Ht; discriminate. }
    cbn [bind Holder_Get Ok Value negb].
    destruct xs as [|y xs]; [inversion Hch|]. apply (IH HF).
Qed.

(** X8. On the chain that [Build] made of booleans, integers and strings,
    [Is] with such a target returns true exactly when the target is one of
    the values, and leaves the heap alone. *)
Theorem Is_built_chain_membership (P : program) (hp : heap) (head : value)
    (xs : list value) (target : value) (n : nat) :
  built_chain hp head xs ->
  Forall (fun x => simple x = true) xs -> simple target = true ->
  exists b : bool,
    Is P (length xs + n) head target hp = Ret (b, hp) /\
    (b = true <-> target ∈ xs).
Proof.
  intros Hch HF Ht. eexists. split; [now apply Is_built_chain|].
  rewrite existsb_exists. split.
  - intros (x & Hin & He). apply list_elem_of_In in Hin.
    rewrite Forall_forall in HF.
    apply (simple_eqb_eq _ _ (HF x Hin)) in He. now subst.
  - intros Hin. exists target. split; [now apply list_elem_of_In|].
    now apply simple_eqb_eq.
Qed.

Lemma Is_built_chain_membership_witness :
  exists b : bool,
    Is plain 2 (VPtr TBuildLink 1) (VInt 5) heap_a5 = Ret (b, heap_a5) /\
    (b = true <-> VInt 5 ∈ [VInt 5; VString "a"]).
Proof.
  apply (Is_built_chain_membership plain heap_a5 (VPtr TBuildLink 1)
           [VInt 5; VString "a"] (VInt 5) 0).
  - apply (built_node heap_a5 1 (VInt 5) (VString "a") [VString "a"]);
      [reflexivity|constructor].
  - repeat constructor.
  - reflexivity.
Defined.

(* ===================================================================== *)
(** * As on the chain that Build makes *)
(* ===================================================================== *)





(** With no client methods, what [As] stores is assignable to the target
    variable. *)
Lemma As_plain_stores_assignable (n : nat) :
  forall (v : value) (elem : gotype) (a : addr) (hp hp' : heap),
    (As plain n v (VPtr elem a) hp = Ret (true, hp') ->
     exists w, hp' = <[a := CVal w]> hp /\ assignable_to plain elem w = true) /\
    (As_loop plain n (VPtr elem a) (mkTypeExample elem) v (VPtr elem a) hp =
       Ret (true, hp') ->
     exists w, hp' = <[a := CVal w]> hp /\ assignable_to plain elem w = true).
Proof.
  induction n as [|n IH]; intros v elem a hp hp'.
  - split; intros H; inversion H.
  - split.
    + rewrite As_pointer. apply IH.
    + rewrite As_loop_S.
      destruct (TypeOf v) as [t|] eqn:Et; cbn [AssignableFrom TypeExample_t bind];
        [|discriminate].
      destruct (AssignableTo plain t elem) eqn:Hassign; cbn [Elem_Set bind].
      { intros [= <-]. exists v. split; [reflexivity|].
        unfold assignable_to. now rewrite Et. }
      destruct (implements plain v MAs) eqn:Hi.
      * apply implements_plain in Hi.
        destruct (call_As_plain (As plain n) v (VPtr elem a) hp Hi)
          as [[w ->]|[->| ->]]; cbn [bind]; try discriminate.
        destruct (As plain n w (VPtr elem a) hp) as [[b1 hp1]|m'| |] eqn:E;
          cbn [bind]; try discriminate.
        destruct b1.
        { intros [= <-]. now apply IH in E. }
        apply As_plain_frame in E. subst hp1.
        destruct (Unwrap_plain v hp) as [[[v' ok] ->]|[->| ->]]; cbn [bind];
          try discriminate.
        destruct ok; cbn [negb]; [apply IH|discriminate].
      * cbn [bind].
        destruct (Unwrap_plain v hp) as [[[v' ok] ->]|[->| ->]]; cbn [bind];
          try discriminate.
        destruct ok; cbn [negb]; [apply IH|discriminate].
Qed.

(** X4. On chains of links and plain values (no client methods), whenever
    [As] returns true the heap differs from the one before only in the target
    variable, and the value stored there has a dynamic type that is
    assignable to the variable's type. *)
Theorem As_stores_assignable_value (n : nat) (v : value) (elem : gotype) (a : addr)
    (hp hp' : heap) :
  As plain n v (VPtr elem a) hp = Ret (true, hp') ->
  exists (w : value) (t : gotype),
    hp' = <[a := CVal w]> hp /\ TypeOf w = Some t /\ AssignableTo plain t elem = true.
Proof.
  intros H. apply As_plain_stores_assignable in H as (w & -> & Hw).
  unfold assignable_to in Hw. destruct (TypeOf w) as [t|] eqn:Et; [|discriminate].
  eauto.
Qed.

Lemma As_stores_assignable_value_witness :
  exists (w : value) (t : gotype),
    <[0 := CVal (VString "a")]> heap_a5 = <[0 := CVal w]> heap_a5 /\
    TypeOf w = Some t /\ AssignableTo plain t TString = true.
Proof.
  apply (As_stores_assignable_value 5 (VPtr TBuildLink 1) TString 0 heap_a5).
  reflexivity.
Defined.

(* ===================================================================== *)
(** * Build on links of the client *)
(* ===================================================================== *)

(** One iteration of [Build] on a [*Link]: its own [Wrap] takes the
    predecessor, and nothing is allocated. *)
Lemma Build_step_Link (P : program) (src : value) (a : addr) (l : Link) (hp : heap) :
  hp !! a = Some (CLink l) ->
  Build_step P src (VPtr TLink a) hp =
  Ret (VPtr TLink a, <[a := CLink (mkLink (mkHolder src true) (Link_v l))]> hp).
Proof. intros Ha. unfold Build_step. cbn. rewrite Ha. reflexivity. Qed.

Lemma Build_loop_Links (P : program) (rest : list value) :
  forall (src : value) (hp : heap),
    Forall (Link_pointer hp) rest ->
    exists hp' : heap,
      Build_loop P src rest hp = Ret (default src (last rest), hp') /\
      length hp' = length hp /\
      (forall (a : addr) (l : Link), hp !! a = Some (CLink l) ->
         exists l', hp' !! a = Some (CLink l') /\ Link_v l' = Link_v l) /\
      (forall (a : addr) (c : cell), hp !! a = Some c ->
         VPtr TLink a ∉ rest -> hp' !! a = Some c) /\
      (forall (rest' : list value) (y : value), rest = rest' ++ [y] ->
         Unwrap P y hp' = Ret ((default src (last rest'), true), hp')).
Proof.
  induction rest as [|dst rest IH]; intros src hp HF; cbn [Build_loop].
  - exists hp. repeat split; eauto.
    intros rest' y E. now destruct rest'.
  - apply Forall_cons in HF as [(a & l & -> & Ha) HF].
    rewrite (Build_step_Link _ _ _ _ _ Ha). cbn [bind].
    set (l1 := mkLink (mkHolder src true) (Link_v l)).
    set (hp1 := <[a := CLink l1]> hp).
    assert (Hlt : a < length hp) by (eapply lookup_lt_Some; eassumption).
    assert (Hkeep : forall (b : addr) (k : Link), hp !! b = Some (CLink k) ->
              exists k', hp1 !! b = Some (CLink k') /\ Link_v k' = Link_v k).
    { intros b k Hb. unfold hp1. destruct (decide (a = b)) as [Eab|Hne].
      - subst b. exists l1. rewrite list_lookup_insert_eq by exact Hlt.
        split; [reflexivity|]. subst l1. cbn [Link_v]. congruence.
      - exists k. now rewrite list_lookup_insert_ne. }
    assert (HF1 : Forall (Link_pointer hp1) rest).
    { eapply Forall_impl; [exact HF|]. intros x (b & k & -> & Hb).
      destruct (Hkeep _ _ Hb) as (k' & Hb' & _). exists b, k'. auto. }
    destruct (IH (VPtr TLink a) hp1 HF1) as (hp' & E & Hlen & Hheld & Hsame & Hun).
    exists hp'. rewrite E. split; [|split; [|split; [|split]]].
    + rewrite last_cons. destruct (last rest); reflexivity.
    + rewrite Hlen. unfold hp1. apply length_insert.
    + intros b k Hb. destruct (Hkeep _ _ Hb) as (k1 & Hb1 & Hv1).
      destruct (Hheld _ _ Hb1) as (k' & Hb' & Hv'). exists k'.
      split; [exact Hb'|congruence].
    + intros b c Hb Hnin. apply Hsame.
      * unfold hp1. rewrite list_lookup_insert_ne; [exact Hb|].
        intros <-. apply Hnin. now left.
      * intros Hin. apply Hnin. now right.
    + intros rest' y Ey. destruct rest' as [|z rest'].
      * injection Ey as <- ->.
        cbn [Build_loop] in E. injection E as <-.
        rewrite (Unwrap_Link P a l1 hp1); [reflexivity|].
        unfold hp1. now apply list_lookup_insert_eq.
      * injection Ey as <- ->.
        rewrite (Hun rest' y eq_refl). rewrite last_cons.
        destruct (last rest'); reflexivity.
Qed.

(** X10. On values of which all after the first are links of the client
    ([*Link] with their struct in the heap), [Build] allocates nothing and
    returns the last of them itself. Each link keeps its held value, cells
    that are not among these links are untouched, and the returned link
    unwraps to the value before it in the list. *)
Theorem Build_of_Links_allocates_nothing (P : program) (x : value) (rest : list value)
    (hp : heap) :
  Forall (Link_pointer hp) rest ->
  exists hp' : heap,
    Build P (x :: rest) hp = Ret (default x (last rest), hp') /\
    length hp' = length hp /\
    (forall (a : addr) (l : Link), hp !! a = Some (CLink l) ->
       exists l', hp' !! a = Some (CLink l') /\ Link_v l' = Link_v l) /\
    (forall (a : addr) (c : cell), hp !! a = Some c ->
       VPtr TLink a ∉ rest -> hp' !! a = Some c) /\
    (forall (rest' : list value) (y : value), rest = rest' ++ [y] ->
       Unwrap P y hp' = Ret ((default x (last rest'), true), hp')).
Proof.
  intros HF. destruct (Build_loop_Links P rest x hp HF) as (hp' & E & H).
  exists hp'. split; [|exact H].
  unfold Build. destruct rest as [|y rest]; exact E.
Qed.

(** The test with three links made by the client, here with two. *)
Lemma Build_of_Links_allocates_nothing_witness :
  exists hp' : heap,
    Build plain [VPtr TLink 0; VPtr TLink 1] heap_links = Ret (VPtr TLink 1, hp') /\
    length hp' = 2.
Proof.
  destruct (Build_of_Links_allocates_nothing plain (VPtr TLink 0) [VPtr TLink 1]
              heap_links) as (hp' & E & Hlen & _).
  - repeat constructor. eexists 1, _. split; reflexivity.
  - exists hp'. split; [exact E|exact Hlen].
Defined.

(* ===================================================================== *)
(** * Cycles and nil links *)
(* ===================================================================== *)

Lemma Is_cycle_no_match (P : program) (a : addr) (l : Link) (target : value)
    (hp : heap) :
  hp !! a = Some (CLink l) ->
  Link_Unwrap l = (VPtr TLink a, true) ->
  iface_eq P (Link_v l) target = Ret false ->
  TypeOf target <> Some (TPtr TLink) ->
  forall n : nat, Is P n (VPtr TLink a) target hp = NoFuel.
Proof.
  intros Ha Hun Heq Ht. induction n as [|n IH]; [reflexivity|].
  rewrite (Is_at_Link _ _ _ _ _ _ Ha), Heq. cbn [bind].
  rewrite DeepEqual_types by (cbn [TypeOf]; congruence). cbn [bind].
  unfold Link_Unwrap in Hun. rewrite Hun. cbn [negb]. exact IH.
Qed.

(** On a link that wraps itself, [Is] with the link itself as the target
    returns true at the first node. *)
Lemma Is_cycle_itself (P : program) (a : addr) (l : Link) (hp : heap) (n : nat) :
  hp !! a = Some (CLink l) ->
  Is P (S n) (VPtr TLink a) (VPtr TLink a) hp = Ret (true, hp).
Proof.
  intros Ha. rewrite (Is_at_Link _ _ _ _ _ _ Ha).
  assert (Hd : DeepEqual n hp (VPtr TLink a) (VPtr TLink a) = Ret true)
    by now apply DeepEqual_refl.
  destruct (decide (TypeOf (Link_v l) = TypeOf (VPtr TLink a))) as [E|E].
  - destruct (Link_v l) as [| | | | |t|e b| | | | | |]; try discriminate E.
    + cbn [TypeOf] in E. injection E as ->. cbn. now rewrite Hd.
    + cbn [TypeOf] in E. injection E as ->. cbn [iface_eq TypeOf].
      rewrite bool_decide_eq_true_2 by reflexivity. cbn [negb Comparable bind].
      destruct (Nat.eqb b a); [reflexivity|]. now rewrite Hd.
  - rewrite (iface_eq_types P _ _ E). cbn [bind]. now rewrite Hd.
Qed.

(** X11. There is no guard against cycles. [Build(l, l)] on a link of the
    client makes [l] wrap itself. On this chain [Is] never returns (no amount
    of fuel gives a result) when the target is not a [*Link] and the held
    value does not match it; with [l] itself as the target it returns true
    at once. *)
Theorem Is_on_self_wrapped_Link_diverges (P : program) (a : addr) (l : Link)
    (target : value) (hp : heap) :
  hp !! a = Some (CLink l) ->
  iface_eq P (Link_v l) target = Ret false ->
  TypeOf target <> Some (TPtr TLink) ->
  exists hp' : heap,
    Build P [VPtr TLink a; VPtr TLink a] hp = Ret (VPtr TLink a, hp') /\
    Unwrap P (VPtr TLink a) hp' = Ret ((VPtr TLink a, true), hp') /\
    (forall n : nat, Is P n (VPtr TLink a) target hp' = NoFuel) /\
    (forall n : nat, Is P (S n) (VPtr TLink a) (VPtr TLink a) hp' = Ret (true, hp')).
Proof.
  intros Ha Heq Ht.
  assert (Hlt : a < length hp) by (eapply lookup_lt_Some; eassumption).
  set (l1 := mkLink (mkHolder (VPtr TLink a) true) (Link_v l)).
  exists (<[a := CLink l1]> hp).
  assert (Ha1 : <[a := CLink l1]> hp !! a = Some (CLink l1))
    by now apply list_lookup_insert_eq.
  split; [|split; [|split]].
  - unfold Build. cbn [Build_loop]. rewrite (Build_step_Link _ _ _ _ _ Ha).
    reflexivity.
  - now rewrite (Unwrap_Link _ _ _ _ Ha1).
  - now apply (Is_cycle_no_match P a l1).
  - intros n. now apply (Is_cycle_itself P a l1).
Qed.

Lemma Is_on_self_wrapped_Link_diverges_witness :
  exists hp' : heap,
    Build plain [VPtr TLink 0; VPtr TLink 0] heap_links = Ret (VPtr TLink 0, hp') /\
    Unwrap plain (VPtr TLink 0) hp' = Ret ((VPtr TLink 0, true), hp') /\
    (forall n : nat, Is plain n (VPtr TLink 0) (VString "2") hp' = NoFuel) /\
    (forall n : nat, Is plain (S n) (VPtr TLink 0) (VPtr TLink 0) hp' = Ret (true, hp')).
Proof.
  apply (Is_on_self_wrapped_Link_diverges plain 0 (mkLink zeroHolder (VString "1"))
           (VString "2") heap_links).
  - reflexivity.
  - reflexivity.
  - discriminate.
Defined.

(** X13. The methods of [Link] and [buildLink] read the struct behind the
    receiver, so a nil [*Link] or [*buildLink] is a node on which [Unwrap]
    panics, [Is] panics unless the target is nil as well, [As] panics unless
    the pointer itself is assignable to the target variable, and which
    [Build] cannot take after the first value. *)
Theorem nil_Link_panics (P : program) (t : gotype) (n : nat) (hp : heap) :
  t = TLink \/ t = TBuildLink ->
  Unwrap P (VNilRef (TPtr t)) hp = Panic nil_dereference /\
  (forall target : value, Nil target = false ->
     Is P (S n) (VNilRef (TPtr t)) target hp = Panic nil_dereference) /\
  (forall (elem : gotype) (a : addr), AssignableTo P (TPtr t) elem = false ->
     As P (2 + n) (VNilRef (TPtr t)) (VPtr elem a) hp = Panic nil_dereference) /\
  (forall x : value, Build P [x; VNilRef (TPtr t)] hp = Panic nil_dereference).
Proof.
  intros [-> | ->]; (split; [reflexivity|]; split; [|split; [|reflexivity]]).
  all: try (intros target Ht; rewrite Is_S, Ht, andb_false_r; reflexivity).
  all: intros elem a Hna; cbn [Nat.add]; rewrite As_pointer, As_loop_S;
    cbn [TypeOf AssignableFrom TypeExample_t bind]; rewrite Hna; reflexivity.
Qed.

Lemma nil_Link_panics_witness :
  Is plain 1 (VNilRef (TPtr TLink)) (VString "a") [] = Panic nil_dereference.
Proof.
  destruct (nil_Link_panics plain TLink 0 []) as (_ & H & _); [now left|].
  apply H. reflexivity.
Defined.
